(** * The identity and session security engine (the backend's security module)

    A shallow embedding of the security module: account lockout, rate
    limiting, audit logging, session management and the
    [EncryptionManager].  The relational store, the wall clock, the random
    generator and the failures of the storage backend are made explicit in
    a [World]; every [async] function of the module becomes a computation
    in the state-and-exception monad [M] over that world. *)

From stdpp Require Import gmap strings list.
From Stdlib Require Import ZArith Lia.
From Stdlib.Strings Require Import Byte.

Local Open Scope Z_scope.

(** ** Rows of the relational store (migration "authentication and
       security tables") *)

(** [users]: only the columns the security module reads or writes. *)
Record UserRow := mkUser {
  email : string;
  name : option string;
  failed_login_attempts : Z;
  locked_until : option Z;
  last_login : option Z
}.

(** [user_sessions]. Timestamps are milliseconds since the epoch. *)
Record SessionRow := mkSession {
  s_id : Z;                      (* column [id] *)
  user_id : Z;
  session_token : string;
  refresh_token : string;
  device_info : string;
  ip_address : string;
  user_agent : string;
  expires_at : Z;
  refresh_expires_at : Z;
  created_at : Z;
  last_used : Z;
  is_active : bool
}.

(** [rate_limits]. *)
Record RateLimitRow := mkRateLimit {
  identifier : string;
  endpoint : string;
  requests_count : Z;
  window_start : Z;
  blocked_until : option Z;
  rl_created_at : Z;
  rl_updated_at : Z
}.

(** A value of the [details] object of an audit event. *)
Inductive Detail :=
  | DStr (s : string)
  | DNum (z : Z)
  | DBool (b : bool).

(** [security_audit_log]. *)
Record AuditRow := mkAudit {
  log_user_id : option Z;
  event_type : string;
  log_ip_address : option string;
  log_user_agent : option string;
  success : bool;
  details : list (string * Detail);
  log_created_at : Z
}.

(** ** The world

    - [clock] is the value the next reading of the clock returns; after a
      reading the clock advances by the head of [ticks] (a natural number
      of milliseconds, so the clock never runs backwards).  JavaScript's
      [new Date()] / [Date.now()] and PostgreSQL's [NOW()] read the same
      clock.
    - [faults] schedules the failures of the storage backend: each call of
      [db.query] consumes the head; [true] makes that call reject.  An
      exhausted schedule means no further failure.  A scheduled fault
      stands for every cause the model does not compute from the tables
      (lost connection, malformed INET value, ...).
    - [randomBytes n] is the [n]-th output of the random generator as a
      hexadecimal string, [draws] the number of outputs consumed.
    - [session_seq] is the sequence behind [user_sessions.id]. *)
Record World := mkWorld {
  users : gmap Z UserRow;
  user_sessions : list SessionRow;
  rate_limits : list RateLimitRow;
  security_audit_log : list AuditRow;
  session_seq : Z;
  clock : Z;
  ticks : list N;
  faults : list bool;
  randomBytes : nat -> string;
  draws : nat
}.

Definition set_users (f : gmap Z UserRow -> gmap Z UserRow) (w : World) : World :=
  mkWorld (f (users w)) (user_sessions w) (rate_limits w) (security_audit_log w)
          (session_seq w) (clock w) (ticks w) (faults w) (randomBytes w) (draws w).

Definition set_user_sessions (f : list SessionRow -> list SessionRow) (w : World) : World :=
  mkWorld (users w) (f (user_sessions w)) (rate_limits w) (security_audit_log w)
          (session_seq w) (clock w) (ticks w) (faults w) (randomBytes w) (draws w).

Definition set_rate_limits (f : list RateLimitRow -> list RateLimitRow) (w : World) : World :=
  mkWorld (users w) (user_sessions w) (f (rate_limits w)) (security_audit_log w)
          (session_seq w) (clock w) (ticks w) (faults w) (randomBytes w) (draws w).

Definition set_security_audit_log (f : list AuditRow -> list AuditRow) (w : World) : World :=
  mkWorld (users w) (user_sessions w) (rate_limits w) (f (security_audit_log w))
          (session_seq w) (clock w) (ticks w) (faults w) (randomBytes w) (draws w).

Definition set_session_seq (z : Z) (w : World) : World :=
  mkWorld (users w) (user_sessions w) (rate_limits w) (security_audit_log w)
          z (clock w) (ticks w) (faults w) (randomBytes w) (draws w).

Definition set_faults (fs : list bool) (w : World) : World :=
  mkWorld (users w) (user_sessions w) (rate_limits w) (security_audit_log w)
          (session_seq w) (clock w) (ticks w) fs (randomBytes w) (draws w).

Definition set_draws (n : nat) (w : World) : World :=
  mkWorld (users w) (user_sessions w) (rate_limits w) (security_audit_log w)
          (session_seq w) (clock w) (ticks w) (faults w) (randomBytes w) n.

(** One reading of the clock has been taken. *)
Definition tick (w : World) : World :=
  mkWorld (users w) (user_sessions w) (rate_limits w) (security_audit_log w)
          (session_seq w) (clock w + Z.of_N (hd 0%N (ticks w))) (tl (ticks w))
          (faults w) (randomBytes w) (draws w).

(** ** The monad of the module's asynchronous functions *)

Inductive Error :=
  | DbError                 (* db.query rejected *)
  | TypeError               (* e.g. destructuring [undefined] *)
  | SyntaxError             (* JSON.parse of malformed text *)
  | Err (message : string). (* [throw new Error(message)] *)

Inductive Outcome (A : Type) :=
  | Return (a : A)
  | Throw (e : Error).
Arguments Return {A} a.
Arguments Throw {A} e.

Definition M (A : Type) : Type := World -> Outcome A * World.

Definition ret {A} (a : A) : M A := fun w => (Return a, w).

Definition throw {A} (e : Error) : M A := fun w => (Throw e, w).

Definition bind {A B} (c : M A) (k : A -> M B) : M B := fun w =>
  match c w with
  | (Return a, w') => k a w'
  | (Throw e, w') => (Throw e, w')
  end.

(** [try { body } catch (error) { handler }] *)
Definition try_catch {A} (body : M A) (handler : Error -> M A) : M A := fun w =>
  match body w with
  | (Return a, w') => (Return a, w')
  | (Throw e, w') => handler e w'
  end.

Notation "'let*' x ':=' c 'in' k" := (bind c (fun x => k))
  (at level 10, x pattern, c at level 100, k at level 200).

(** [new Date()], [Date.now()] and SQL [NOW()]. *)
Definition new_Date : M Z := fun w => (Return (clock w), tick w).
Definition Date_now : M Z := new_Date.
Definition NOW : M Z := new_Date.

(** [db.query(statement)]: the statement runs unless a fault is scheduled. *)
Definition db_query {A} (statement : M A) : M A := fun w =>
  match faults w with
  | true :: fs => (Throw DbError, set_faults fs w)
  | false :: fs => statement (set_faults fs w)
  | [] => statement w
  end.

(** [crypto.randomBytes(TOKEN_LENGTH).toString('hex')] *)
Definition generateSecureToken : M string := fun w =>
  (Return (randomBytes w (draws w)), set_draws (S (draws w)) w).

(** ** Configuration *)

Module ACCOUNT_LOCKOUT.
Definition threshold : Z := 5.           (* failed attempts *)
Definition duration : Z := 30 * 60 * 1000. (* 30 minutes *)
End ACCOUNT_LOCKOUT.

(** PostgreSQL's INTEGER is a signed 32-bit integer; overflow is an error. *)
Definition INT_MAX : Z := 2147483647.

(** ** Security audit logging *)

(** [INSERT INTO security_audit_log (...) VALUES (...)]; [created_at]
    defaults to the statement's timestamp, [user_id] references [users]. *)
Definition sql_insert_audit (userId : option Z) (eventType : string)
    (ipAddress userAgent : option string) (ok : bool)
    (dets : list (string * Detail)) : M unit :=
  let* now := NOW in
  fun w =>
    match userId with
    | Some u =>
        match users w !! u with
        | None => (Throw DbError, w)      (* foreign key violation *)
        | Some _ =>
            (Return tt, set_security_audit_log
               (fun l => l ++ [mkAudit userId eventType ipAddress userAgent ok dets now]) w)
        end
    | None =>
        (Return tt, set_security_audit_log
           (fun l => l ++ [mkAudit userId eventType ipAddress userAgent ok dets now]) w)
    end.

Definition logSecurityEvent (userId : option Z) (eventType : string)
    (ipAddress userAgent : option string) (ok : bool)
    (dets : list (string * Detail)) : M unit :=
  try_catch
    (db_query (sql_insert_audit userId eventType ipAddress userAgent ok dets))
    (fun _ => ret tt).

(** ** Account lockout management *)

(** [SELECT failed_login_attempts, locked_until FROM users WHERE id = $1] *)
Definition sql_select_lockout (userId : Z) : M (list (Z * option Z)) := fun w =>
  (Return match users w !! userId with
          | Some u => [(failed_login_attempts u, locked_until u)]
          | None => []
          end, w).

(** [UPDATE users SET failed_login_attempts = 0, locked_until = NULL WHERE id = $1] *)
Definition sql_clear_lockout (userId : Z) : M unit := fun w =>
  (Return tt,
   set_users (fun us =>
     match us !! userId with
     | Some u => <[userId := mkUser (email u) (name u) 0 None (last_login u)]> us
     | None => us
     end) w).

(** [locked_until && cmp(new Date(locked_until), new Date())]: the clock is
    read only when [locked_until] is not null. *)
Definition locked_and (lockedUntil : option Z) (cmp : Z -> Z -> bool) : M bool :=
  match lockedUntil with
  | Some l => let* now := new_Date in ret (cmp l now)
  | None => ret false
  end.

Definition checkAccountLockout (userId : Z) : M bool :=
  try_catch
    (let* rows := db_query (sql_select_lockout userId) in
     match rows with
     | [] => ret false
     | (_, lockedUntil) :: _ =>
         let* locked := locked_and lockedUntil (fun l now => now <? l) in
         if locked then ret true   (* Account is locked *)
         else
           let* expired := locked_and lockedUntil (fun l now => l <=? now) in
           let* _ := (if expired then db_query (sql_clear_lockout userId) else ret tt) in
           ret false
     end)
    (fun _ => ret false).

(** The [UPDATE users ... RETURNING failed_login_attempts, locked_until] of
    [handleFailedLogin]. *)
Definition sql_record_failure (threshold : Z) (userId : Z) : M (list (Z * option Z)) :=
  let* now := NOW in
  fun w =>
    match users w !! userId with
    | None => (Return [], w)
    | Some u =>
        let attempts := failed_login_attempts u + 1 in
        if INT_MAX <? attempts then (Throw DbError, w)   (* integer out of range *)
        else
          let lockedUntil :=
            if threshold <=? failed_login_attempts u + 1
            then Some (now + ACCOUNT_LOCKOUT.duration)
            else locked_until u in
          (Return [(attempts, lockedUntil)],
           set_users <[userId := mkUser (email u) (name u) attempts lockedUntil (last_login u)]> w)
    end.

Record FailedLoginInfo := mkFailedLoginInfo {
  attempts : Z;
  locked : bool;
  lockoutExpires : option Z     (* [null] and [undefined] are both [None] *)
}.

Definition is_some {A} (o : option A) : bool :=
  match o with Some _ => true | None => false end.

Definition handleFailedLogin (userId : Z) (ipAddress userAgent : string) : M FailedLoginInfo :=
  try_catch
    (let* rows := db_query (sql_record_failure ACCOUNT_LOCKOUT.threshold userId) in
     match rows with
     | [] => throw TypeError
     | (failed, lockedUntil) :: _ =>
         let* _ := logSecurityEvent (Some userId) "failed_login" (Some ipAddress)
                     (Some userAgent) false
                     [("attempts"%string, DNum failed);
                      ("locked"%string, DBool (is_some lockedUntil))] in
         ret (mkFailedLoginInfo failed (is_some lockedUntil) lockedUntil)
     end)
    (fun _ => ret (mkFailedLoginInfo 0 false None)).

(** [UPDATE users SET failed_login_attempts = 0, locked_until = NULL,
    last_login = NOW() WHERE id = $1] *)
Definition sql_record_success (userId : Z) : M unit :=
  let* now := NOW in
  fun w =>
    (Return tt,
     set_users (fun us =>
       match us !! userId with
       | Some u => <[userId := mkUser (email u) (name u) 0 None (Some now)]> us
       | None => us
       end) w).

Definition handleSuccessfulLogin (userId : Z) (ipAddress userAgent : string) : M unit :=
  try_catch
    (let* _ := db_query (sql_record_success userId) in
     logSecurityEvent (Some userId) "login" (Some ipAddress) (Some userAgent) true [])
    (fun _ => ret tt).

(** [n] consecutive calls of the same function, results in call order. *)
Fixpoint repeatM {A} (n : nat) (c : M A) : M (list A) :=
  match n with
  | O => ret []
  | S n' => let* a := c in let* rest := repeatM n' c in ret (a :: rest)
  end.

(** ** Rate limiting *)

(** An entry of [RATE_LIMITS]; a property that is [undefined] is [None]. *)
Record Limit := mkLimit {
  requests : option Z;
  window : option Z
}.

(** Property names every JavaScript object inherits from
    [Object.prototype]: [RATE_LIMITS[endpoint]] is then a function or
    object, which is truthy and has neither [requests] nor [window]. *)
Definition Object_prototype_keys : list string :=
  ["constructor"; "__proto__"; "toString"; "toLocaleString"; "valueOf";
   "hasOwnProperty"; "isPrototypeOf"; "propertyIsEnumerable";
   "__defineGetter__"; "__defineSetter__"; "__lookupGetter__";
   "__lookupSetter__"]%string.

(** [RATE_LIMITS[endpoint]]; [None] when the lookup is [undefined]. *)
Definition RATE_LIMITS (ep : string) : option Limit :=
  if String.eqb ep "login" then Some (mkLimit (Some 5) (Some (15 * 60 * 1000)))
  else if String.eqb ep "register" then Some (mkLimit (Some 3) (Some (60 * 60 * 1000)))
  else if String.eqb ep "api" then Some (mkLimit (Some 100) (Some (60 * 60 * 1000)))
  else if String.eqb ep "password_reset" then Some (mkLimit (Some 3) (Some (60 * 60 * 1000)))
  else if existsb (String.eqb ep) Object_prototype_keys then Some (mkLimit None None)
  else None.

(** JavaScript arithmetic and comparison on a number that may be [NaN]
    ([None]): arithmetic propagates it, every comparison with it is false. *)
Definition js_add (a : Z) (b : option Z) : option Z :=
  match b with Some b' => Some (a + b') | None => None end.
Definition js_sub (a : Z) (b : option Z) : option Z :=
  match b with Some b' => Some (a - b') | None => None end.
Definition js_gt (a : Z) (b : option Z) : bool :=
  match b with Some b' => b' <? a | None => false end.
Definition js_ge (a : Z) (b : option Z) : bool :=
  match b with Some b' => b' <=? a | None => false end.

Definition for_pair (ident ep : string) (r : RateLimitRow) : bool :=
  String.eqb (identifier r) ident && String.eqb (endpoint r) ep.

(** [ORDER BY created_at DESC LIMIT 1]: the row with the greatest
    [created_at]; among equal ones the earliest in the table. *)
Fixpoint latest (rows : list RateLimitRow) : option RateLimitRow :=
  match rows with
  | [] => None
  | r :: rest =>
      match latest rest with
      | Some r' => if rl_created_at r <? rl_created_at r' then Some r' else Some r
      | None => Some r
      end
  end.

(** [SELECT requests_count, window_start, blocked_until FROM rate_limits
    WHERE identifier = $1 AND endpoint = $2 ORDER BY created_at DESC LIMIT 1] *)
Definition sql_select_rate_limit (ident ep : string) : M (list (Z * Z * option Z)) := fun w =>
  (Return match latest (filter (fun r => for_pair ident ep r = true) (rate_limits w)) with
          | Some r => [(requests_count r, window_start r, blocked_until r)]
          | None => []
          end, w).

(** [UPDATE rate_limits SET ... WHERE identifier = $1 AND endpoint = $2] *)
Definition update_pair (ident ep : string) (f : RateLimitRow -> RateLimitRow)
    (rows : list RateLimitRow) : list RateLimitRow :=
  map (fun r => if for_pair ident ep r then f r else r) rows.

(** [SET blocked_until = $1]; an Invalid Date parameter is rejected. *)
Definition sql_block (until : option Z) (ident ep : string) : M unit := fun w =>
  match until with
  | None => (Throw DbError, w)
  | Some b =>
      (Return tt,
       set_rate_limits (update_pair ident ep (fun r =>
         mkRateLimit (identifier r) (endpoint r) (requests_count r) (window_start r)
                     (Some b) (rl_created_at r) (rl_updated_at r))) w)
  end.

(** [SET requests_count = requests_count + 1, updated_at = NOW()] *)
Definition sql_increment (ident ep : string) : M unit :=
  let* now := NOW in
  fun w =>
    if existsb (fun r => for_pair ident ep r && (INT_MAX <? requests_count r + 1))
               (rate_limits w)
    then (Throw DbError, w)              (* integer out of range *)
    else
      (Return tt,
       set_rate_limits (update_pair ident ep (fun r =>
         mkRateLimit (identifier r) (endpoint r) (requests_count r + 1) (window_start r)
                     (blocked_until r) (rl_created_at r) now)) w).

(** [SET requests_count = 1, window_start = NOW(), blocked_until = NULL,
    updated_at = NOW()] *)
Definition sql_reset_window (ident ep : string) : M unit :=
  let* now := NOW in
  fun w =>
    (Return tt,
     set_rate_limits (update_pair ident ep (fun r =>
       mkRateLimit (identifier r) (endpoint r) 1 now None (rl_created_at r) now)) w).

(** What a column of type VARCHAR([n]) stores for a text: the text itself
    when it has at most [n] characters; its first [n] characters when all
    that exceeds is spaces; nothing otherwise (the store raises "value too
    long for type character varying"). *)
Definition varchar (n : nat) (s : string) : option string :=
  if (String.length s <=? n)%nat then Some s
  else if forallb (fun a => (Ascii.nat_of_ascii a =? 32)%nat)
            (String.list_ascii_of_string (String.substring n (String.length s - n) s))
       then Some (String.substring 0 n s)
       else None.

(** [INSERT INTO rate_limits (identifier, endpoint, requests_count,
    window_start) VALUES ($1, $2, 1, NOW())]; [identifier] and [endpoint]
    are VARCHAR(255). *)
Definition sql_insert_rate_limit (ident ep : string) : M unit :=
  let* now := NOW in
  fun w =>
    match varchar 255 ident, varchar 255 ep with
    | Some ident_, Some ep_ =>
        (Return tt,
         set_rate_limits (fun rows => rows ++ [mkRateLimit ident_ ep_ 1 now None now now]) w)
    | _, _ => (Throw DbError, w)
    end.

Definition checkRateLimit (ident ep : string) (clientIp : string) : M bool :=
  match RATE_LIMITS ep with
  | None => ret true      (* No limit configured *)
  | Some limit =>
      let* now := new_Date in
      let windowStart := js_sub now (window limit) in
      try_catch
        (let* rows := db_query (sql_select_rate_limit ident ep) in
         match rows with
         | (count, wstart, blockedUntil) :: _ =>
             if match blockedUntil with Some b => now <? b | None => false end
             then ret false                      (* currently blocked *)
             else if js_gt wstart windowStart then
               if js_ge count (requests limit) then
                 let* _ := db_query (sql_block (js_add now (window limit)) ident ep) in
                 let* _ := logSecurityEvent None "rate_limit_exceeded" (Some clientIp)
                             None false
                             [("endpoint"%string, DStr ep);
                              ("identifier"%string, DStr ident);
                              ("requests_count"%string, DNum count)] in
                 ret false
               else
                 let* _ := db_query (sql_increment ident ep) in
                 ret true
             else
               let* _ := db_query (sql_reset_window ident ep) in
               ret true
         | [] =>
             let* _ := db_query (sql_insert_rate_limit ident ep) in
             ret true
         end)
        (fun _ => ret true)  (* Allow request on error *)
  end.

(** ** Session management *)

Record SessionInfo := mkSessionInfo {
  sessionId : Z;
  sessionToken : string;
  refreshToken : string;
  expiresAt : Z;
  refreshExpiresAt : Z
}.

(** What the module relies on of the store's data types: [inet_in s] says
    whether the input function of type INET accepts the text [s] (an IPv4
    or IPv6 address, with an optional netmask). *)
Class PgTypes := {
  inet_in : string -> bool
}.

(** [INSERT INTO user_sessions (...) VALUES (...) RETURNING id]: [id] comes
    from the sequence and is the primary key, both tokens are UNIQUE,
    [user_id] references [users]; [created_at], [last_used] and
    [is_active] take their defaults.  [ip_address] is INET: a parameter
    that is not the text of an address is rejected when it is bound,
    before the statement runs.  ([device_info] receives the output of
    [JSON.stringify], [user_agent] is TEXT, and the tokens, 64 hexadecimal
    digits, fit their VARCHAR(128).) *)
Definition sql_insert_session {P : PgTypes} (userId : Z) (stoken rtoken deviceInfo
    ipAddress userAgent : string) (expires refreshExpires : Z) : M (list Z) :=
  let* now := NOW in
  fun w =>
    if negb (inet_in ipAddress) then (Throw DbError, w)
    else
      let new_id := session_seq w in
      let w1 := set_session_seq (new_id + 1) w in
      if is_some (users w !! userId)
         && negb (existsb (fun s => s_id s =? new_id) (user_sessions w))
         && negb (existsb (fun s => String.eqb (session_token s) stoken) (user_sessions w))
         && negb (existsb (fun s => String.eqb (refresh_token s) rtoken) (user_sessions w))
      then
        (Return [new_id],
         set_user_sessions (fun ss => ss ++
           [mkSession new_id userId stoken rtoken deviceInfo ipAddress userAgent
                      expires refreshExpires now now true]) w1)
      else (Throw DbError, w1).

Definition createSession {P : PgTypes} (userId : Z) (deviceInfo ipAddress userAgent : string)
    : M SessionInfo :=
  try_catch
    (let* stoken := generateSecureToken in
     let* rtoken := generateSecureToken in
     let* d1 := Date_now in
     let expires := d1 + 24 * 60 * 60 * 1000 in
     let* d2 := Date_now in
     let refreshExpires := d2 + 7 * 24 * 60 * 60 * 1000 in
     let* rows := db_query (sql_insert_session userId stoken rtoken deviceInfo
                              ipAddress userAgent expires refreshExpires) in
     match rows with
     | new_id :: _ => ret (mkSessionInfo new_id stoken rtoken expires refreshExpires)
     | [] => throw TypeError
     end)
    (fun _ => throw (Err "Failed to create session")).

Record SessionContext := mkSessionContext {
  ctx_sessionId : Z;
  ctx_userId : Z;
  ctx_email : string;
  ctx_name : option string;
  ctx_expiresAt : Z;
  ctx_refreshExpiresAt : Z
}.

(** [SELECT ... FROM user_sessions s JOIN users u ON s.user_id = u.id
    WHERE s.session_token = $1 AND s.is_active = true AND s.expires_at > NOW()] *)
Definition sql_select_session (stoken : string) : M (list SessionContext) :=
  let* now := NOW in
  fun w =>
    (Return (omap (fun s =>
       if String.eqb (session_token s) stoken && is_active s && (now <? expires_at s)
       then match users w !! user_id s with
            | Some u => Some (mkSessionContext (s_id s) (user_id s) (email u) (name u)
                                               (expires_at s) (refresh_expires_at s))
            | None => None
            end
       else None) (user_sessions w)), w).

(** [UPDATE user_sessions SET last_used = NOW() WHERE id = $1] *)
Definition sql_touch_session (sid : Z) : M unit :=
  let* now := NOW in
  fun w =>
    (Return tt,
     set_user_sessions (map (fun s =>
       if s_id s =? sid
       then mkSession (s_id s) (user_id s) (session_token s) (refresh_token s)
                      (device_info s) (ip_address s) (user_agent s) (expires_at s)
                      (refresh_expires_at s) (created_at s) now (is_active s)
       else s)) w).

Definition validateSession (stoken : string) : M (option SessionContext) :=
  try_catch
    (let* rows := db_query (sql_select_session stoken) in
     match rows with
     | [] => ret None
     | row :: _ =>
         let* _ := db_query (sql_touch_session (ctx_sessionId row)) in
         ret (Some row)
     end)
    (fun _ => ret None).

(** [SELECT id, user_id, refresh_expires_at FROM user_sessions
    WHERE refresh_token = $1 AND is_active = true AND refresh_expires_at > NOW()] *)
Definition sql_select_refresh (rtoken : string) : M (list (Z * Z * Z)) :=
  let* now := NOW in
  fun w =>
    (Return (omap (fun s =>
       if String.eqb (refresh_token s) rtoken && is_active s && (now <? refresh_expires_at s)
       then Some (s_id s, user_id s, refresh_expires_at s)
       else None) (user_sessions w)), w).

(** [UPDATE user_sessions SET session_token = $1, refresh_token = $2,
    expires_at = $3, refresh_expires_at = $4, last_used = NOW() WHERE id = $5];
    rejected when a new token is already held by another row. *)
Definition sql_rotate_session (stoken rtoken : string) (expires refreshExpires : Z)
    (sid : Z) : M unit :=
  let* now := NOW in
  fun w =>
    if existsb (fun s => negb (s_id s =? sid) && String.eqb (session_token s) stoken)
               (user_sessions w)
       || existsb (fun s => negb (s_id s =? sid) && String.eqb (refresh_token s) rtoken)
                  (user_sessions w)
    then (Throw DbError, w)
    else
      (Return tt,
       set_user_sessions (map (fun s =>
         if s_id s =? sid
         then mkSession (s_id s) (user_id s) stoken rtoken
                        (device_info s) (ip_address s) (user_agent s) expires
                        refreshExpires (created_at s) now (is_active s)
         else s)) w).

Record RefreshInfo := mkRefreshInfo {
  new_sessionId : Z;
  new_userId : Z;
  new_sessionToken : string;
  new_refreshToken : string;
  new_expiresAt : Z;
  new_refreshExpiresAt : Z
}.

Definition refreshSession (rtoken : string) : M (option RefreshInfo) :=
  try_catch
    (let* rows := db_query (sql_select_refresh rtoken) in
     match rows with
     | [] => ret None
     | (sid, uid, _) :: _ =>
         let* newSessionToken := generateSecureToken in
         let* newRefreshToken := generateSecureToken in
         let* d1 := Date_now in
         let newExpiresAt := d1 + 24 * 60 * 60 * 1000 in
         let* d2 := Date_now in
         let newRefreshExpiresAt := d2 + 7 * 24 * 60 * 60 * 1000 in
         let* _ := db_query (sql_rotate_session newSessionToken newRefreshToken
                               newExpiresAt newRefreshExpiresAt sid) in
         ret (Some (mkRefreshInfo sid uid newSessionToken newRefreshToken
                                  newExpiresAt newRefreshExpiresAt))
     end)
    (fun _ => ret None).

(** [UPDATE user_sessions SET is_active = false WHERE <cond>] *)
Definition sql_deactivate (cond : SessionRow -> bool) : M unit := fun w =>
  (Return tt,
   set_user_sessions (map (fun s =>
     if cond s
     then mkSession (s_id s) (user_id s) (session_token s) (refresh_token s)
                    (device_info s) (ip_address s) (user_agent s) (expires_at s)
                    (refresh_expires_at s) (created_at s) (last_used s) false
     else s)) w).

Definition revokeSession (stoken : string) : M bool :=
  try_catch
    (let* _ := db_query (sql_deactivate (fun s => String.eqb (session_token s) stoken)) in
     ret true)
    (fun _ => ret false).

Definition revokeAllUserSessions (userId : Z) : M bool :=
  try_catch
    (let* _ := db_query (sql_deactivate (fun s => user_id s =? userId)) in
     ret true)
    (fun _ => ret false).

(** ** Encryption utilities *)

Definition Buffer : Type := list byte.

(** What [EncryptionManager] calls of Node's [crypto], [Buffer] and [JSON].
    [Value] is the type of JavaScript values handed to [encrypt].

    - [cipher algorithm password aad text] is
      [createCipher(algorithm, password)], [setAAD(aad)],
      [update(text, 'utf8', 'base64') + final('base64')] and [getAuthTag()];
      [createCipher] takes no initialisation vector: key and vector are both
      derived from [password].
    - [decipher algorithm password aad tag encrypted] is
      [createDecipher(algorithm, password)], [setAAD], [setAuthTag],
      [update(encrypted, 'base64', 'utf8') + final('utf8')]; [None] when
      [final] throws because the tag does not authenticate the data.
    - [JSON_stringify] is [None] when the result is [undefined];
      [JSON_parse] is [None] when it throws. *)
Class NodeCrypto := {
  Value : Type;
  pbkdf2Sync : string -> Buffer -> Z -> Z -> string -> Buffer;
  sha256_hex : string -> string;
  cipher : string -> Buffer -> Buffer -> string -> string * Buffer;
  decipher : string -> Buffer -> Buffer -> Buffer -> string -> option string;
  toString_base64 : Buffer -> string;
  Buffer_from_base64 : string -> Buffer;
  JSON_stringify : Value -> option string;
  JSON_parse : string -> option Value
}.

(** The two facts about the library the module relies on: deciphering
    with the password, associated data and tag of the enciphering gives
    the text back, and base64 decoding inverts encoding. *)
Class NodeCryptoLaws (C : NodeCrypto) : Prop := {
  decipher_cipher : forall alg password aad text,
    decipher alg password aad (snd (cipher alg password aad text))
             (fst (cipher alg password aad text)) = Some text;
  from_base64_to_base64 : forall b, Buffer_from_base64 (toString_base64 b) = b
}.

Definition ENCRYPTION_ALGORITHM : string := "aes-256-gcm".
Definition KEY_DERIVATION_ITERATIONS : Z := 100000.

Record EncryptionManager := mkEncryptionManager {
  masterKey : string
}.

Record EncryptedData := mkEncryptedData {
  encrypted : string;
  salt : string;
  iv : string;
  authTag : string;
  keyId : string
}.

Definition with_iv (v : string) (d : EncryptedData) : EncryptedData :=
  mkEncryptedData (encrypted d) (salt d) v (authTag d) (keyId d).

Section EncryptionManager.
Context {C : NodeCrypto}.

Definition deriveKey (password : string) (salt_ : Buffer) : Buffer :=
  pbkdf2Sync password salt_ KEY_DERIVATION_ITERATIONS 32 "sha256".

(** [createHash('sha256').update(masterKey).digest('hex').substring(0, 16)] *)
Definition fingerprint (key : string) : string :=
  String.substring 0 16 (sha256_hex key).

(** [salt_] and [iv_] are the two results of [crypto.randomBytes(16)]. *)
Definition encrypt (this : EncryptionManager) (salt_ iv_ : Buffer) (data : Value)
    : Outcome EncryptedData :=
  let key := deriveKey (masterKey this) salt_ in
  match JSON_stringify data with
  | None => Throw TypeError
  | Some text =>
      let '(encrypted_, authTag_) := cipher ENCRYPTION_ALGORITHM key salt_ text in
      Return (mkEncryptedData encrypted_ (toString_base64 salt_) (toString_base64 iv_)
                              (toString_base64 authTag_) (fingerprint (masterKey this)))
  end.

Definition decrypt (this : EncryptionManager) (encryptedData : EncryptedData)
    : Outcome Value :=
  let currentKeyId := fingerprint (masterKey this) in
  if negb (String.eqb (keyId encryptedData) currentKeyId)
  then Throw (Err "Encryption key mismatch")
  else
    let key := deriveKey (masterKey this) (Buffer_from_base64 (salt encryptedData)) in
    match decipher ENCRYPTION_ALGORITHM key
                   (Buffer_from_base64 (salt encryptedData))
                   (Buffer_from_base64 (authTag encryptedData))
                   (encrypted encryptedData) with
    | None => Throw (Err "Unsupported state or unable to authenticate data")
    | Some text =>
        match JSON_parse text with
        | Some v => Return v
        | None => Throw SyntaxError
        end
    end.
(** [x] survives the round trip through [JSON.stringify] and [JSON.parse]. *)
Definition serializable (x : Value) : Prop :=
  exists text, JSON_stringify x = Some text /\ JSON_parse text = Some x.
End EncryptionManager.

(** A small instance of the library, to run the definitions on concrete
    inputs: the "hash" is the identity, the "cipher" leaves the text as it
    is and tags it with password, associated data and text. *)
Definition demo_cipher (alg : string) (password aad : Buffer) (text : string)
    : string * Buffer :=
  (text, password ++ aad ++ String.list_byte_of_string text).

Definition demo_decipher (alg : string) (password aad tag : Buffer) (enc : string)
    : option string :=
  if String.eqb (String.string_of_list_byte tag)
                (String.string_of_list_byte (password ++ aad ++ String.list_byte_of_string enc))
  then Some enc else None.

Definition demo_crypto : NodeCrypto := {|
  Value := string;
  pbkdf2Sync := fun password salt_ _ _ _ => String.list_byte_of_string password ++ salt_;
  sha256_hex := fun s => s;
  cipher := demo_cipher;
  decipher := demo_decipher;
  toString_base64 := String.string_of_list_byte;
  Buffer_from_base64 := String.list_byte_of_string;
  JSON_stringify := fun v => Some v;
  JSON_parse := fun s => Some s
|}.

(** ** Small worlds to run the functions on *)

(** A store whose INET accepts the addresses of the examples. *)
Definition demo_pg : PgTypes := {|
  inet_in := fun s => existsb (String.eqb s) ["1.2.3.4"; "10.0.0.1"; "127.0.0.1"]%string
|}.

(** The [n]-th token of the demonstration generator: "Atok", "Btok", ... *)
Definition demo_token (n : nat) : string :=
  String (Ascii.ascii_of_nat (65 + n)) "tok".

Definition demo_user : UserRow := mkUser "a@b.c" None 0 None None.

(** One user, empty tables, a clock at 1000 that advances by 5 and then 7. *)
Definition demo_world : World :=
  mkWorld {[ 1 := demo_user ]} [] [] [] 1 1000 [5%N; 7%N] [] demo_token 0.

(** * The rest of the module and its callers *)

(** ** Regular expressions

    The patterns of [validateEmail], [validatePassword] and [sanitizeInput]
    are matched with Brzozowski derivatives.  A pattern anchored by [^] and
    [$] accepts a string when the string is in its language; a lookahead
    [(?=r)] at the start of an anchored pattern accepts the strings with a
    prefix in the language of [r], that is the language of [r] followed by
    anything, intersected with the rest of the pattern. *)

Inductive regex :=
  | Nothing                       (* matches no string *)
  | Eps                           (* the empty string *)
  | Cls (p : Ascii.ascii -> bool)       (* one code unit of a class *)
  | Cat (r1 r2 : regex)
  | Alt (r1 r2 : regex)
  | And (r1 r2 : regex)
  | Star (r : regex).

Fixpoint nullable (r : regex) : bool :=
  match r with
  | Nothing => false
  | Eps => true
  | Cls _ => false
  | Cat r1 r2 => nullable r1 && nullable r2
  | Alt r1 r2 => nullable r1 || nullable r2
  | And r1 r2 => nullable r1 && nullable r2
  | Star _ => true
  end.

Fixpoint deriv (a : Ascii.ascii) (r : regex) : regex :=
  match r with
  | Nothing => Nothing
  | Eps => Nothing
  | Cls p => if p a then Eps else Nothing
  | Cat r1 r2 =>
      if nullable r1 then Alt (Cat (deriv a r1) r2) (deriv a r2)
      else Cat (deriv a r1) r2
  | Alt r1 r2 => Alt (deriv a r1) (deriv a r2)
  | And r1 r2 => And (deriv a r1) (deriv a r2)
  | Star r1 => Cat (deriv a r1) (Star r1)
  end.

Fixpoint matches (r : regex) (s : list Ascii.ascii) : bool :=
  match s with
  | [] => nullable r
  | a :: s' => matches (deriv a r) s'
  end.

(** [regex.test(s)] for an anchored pattern. *)
Definition test (r : regex) (s : string) : bool :=
  matches r (String.list_ascii_of_string s).

(** [r+] and [r{n,}]. *)
Definition Plus (r : regex) : regex := Cat r (Star r).

Fixpoint AtLeast (n : nat) (r : regex) : regex :=
  match n with
  | O => Star r
  | S n' => Cat r (AtLeast n' r)
  end.

Definition in_range (lo hi : string) (a : Ascii.ascii) : bool :=
  match lo, hi with
  | String l _, String h _ =>
      (Ascii.nat_of_ascii l <=? Ascii.nat_of_ascii a)%nat
      && (Ascii.nat_of_ascii a <=? Ascii.nat_of_ascii h)%nat
  | _, _ => false
  end.

Definition is_char (c : string) (a : Ascii.ascii) : bool :=
  match c with
  | String c' _ => Ascii.eqb a c'
  | EmptyString => false
  end.

(** [\s] and the white space [trim] strips, on code units below 256:
    tab, line feed, vertical tab, form feed, carriage return, space and
    no-break space (the further members of the class are above 255). *)
Definition is_space (a : Ascii.ascii) : bool :=
  let n := Ascii.nat_of_ascii a in
  ((9 <=? n) && (n <=? 13) || (n =? 32) || (n =? 160))%nat.

(** What [.] does not match: line feed and carriage return (the other two
    line terminators are above 255). *)
Definition is_line_terminator (a : Ascii.ascii) : bool :=
  let n := Ascii.nat_of_ascii a in ((n =? 10) || (n =? 13))%nat.

Definition dot : regex := Cls (fun a => negb (is_line_terminator a)).
Definition anything : regex := Star (Cls (fun _ => true)).

(** [(?=.*c)] at the start of an anchored pattern. *)
Definition lookahead_has (c : Ascii.ascii -> bool) : regex :=
  Cat (Star dot) (Cat (Cls c) anything).

(** ** Input validation and sanitization *)

(** [[^\s@]] *)
Definition not_space_at (a : Ascii.ascii) : bool := negb (is_space a || is_char "@" a).

(** [/^[^\s@]+@[^\s@]+\.[^\s@]+$/] *)
Definition emailRegex : regex :=
  Cat (Plus (Cls not_space_at))
      (Cat (Cls (is_char "@"))
           (Cat (Plus (Cls not_space_at))
                (Cat (Cls (is_char ".")) (Plus (Cls not_space_at))))).

Definition validateEmail (email_ : string) : bool := test emailRegex email_.

Definition is_lower (a : Ascii.ascii) : bool := in_range "a" "z" a.
Definition is_upper (a : Ascii.ascii) : bool := in_range "A" "Z" a.
Definition is_digit (a : Ascii.ascii) : bool := in_range "0" "9" a.

(** [[@$!%*?&]] *)
Definition is_special (a : Ascii.ascii) : bool :=
  existsb (fun c => Ascii.eqb a c) (String.list_ascii_of_string "@$!%*?&").

(** [[A-Za-z\d@$!%*?&]] *)
Definition is_password_char (a : Ascii.ascii) : bool :=
  is_upper a || is_lower a || is_digit a || is_special a.

(** [/^(?=.*[a-z])(?=.*[A-Z])(?=.*\d)(?=.*[@$!%*?&])[A-Za-z\d@$!%*?&]{8,}$/] *)
Definition passwordRegex : regex :=
  And (lookahead_has is_lower)
      (And (lookahead_has is_upper)
           (And (lookahead_has is_digit)
                (And (lookahead_has is_special)
                     (AtLeast 8 (Cls is_password_char))))).

Definition validatePassword (password : string) : bool := test passwordRegex password.

(** [String.prototype.trim] *)
Fixpoint trim_start (s : list Ascii.ascii) : list Ascii.ascii :=
  match s with
  | a :: s' => if is_space a then trim_start s' else s
  | [] => []
  end.

Definition trim (s : list Ascii.ascii) : list Ascii.ascii :=
  rev (trim_start (rev (trim_start s))).

(** A JavaScript value as far as the module tells values apart. *)
Inductive JsVal :=
  | JUndefined
  | JNull
  | JBool (b : bool)
  | JNum (z : Z)
  | JStr (s : string)
  | JObject.

(** [input.trim().replace(/[<>]/g, '')] on strings; any other value is
    returned as it is. *)
Definition sanitizeString (input : string) : string :=
  String.string_of_list_ascii
    (List.filter (fun a => negb (is_char "<" a || is_char ">" a))
                 (trim (String.list_ascii_of_string input))).

Definition sanitizeInput (input : JsVal) : JsVal :=
  match input with
  | JStr s => JStr (sanitizeString s)
  | v => v
  end.

(** ** Requests and responses

    An API Gateway event as far as the handlers read it.  [headers] is
    [None] when [event.headers] is missing; [sourceIp] is
    [event.requestContext?.identity?.sourceIp]; [body] is the outcome of
    [JSON.parse(event.body)] followed by destructuring: a function from
    property names to values ([JUndefined] for a missing property), or the
    exception thrown when the text does not parse or parses to [null]. *)
Record Event := mkEvent {
  httpMethod : string;
  path : string;
  headers : option (gmap string string);
  sourceIp : option string;
  body : Outcome (string -> JsVal)
}.

(** The JSON documents the handlers answer with. *)
Inductive Body :=
  | NoBody
  | ErrorBody (error : string)
  | ErrorDetailsBody (error details_ : string)
  | FailedLoginBody (error : string) (attemptsRemaining : Z)
  | MessageBody (message : string)
  | LoginBody (message : string) (user_id_ : Z) (user_email : string)
              (user_name : option string) (token refreshToken_ : string)
              (expiresAt_ : Z)
  | RefreshBody (message : string) (token refreshToken_ : string) (expiresAt_ : Z).

Record Response := mkResponse {
  statusCode : Z;
  res_headers : list (string * string);
  res_body : Body
}.

Definition Handler : Type :=
  Event -> string -> string -> list (string * string) -> M Response.

(** [!v] is [negb (truthy v)]. *)
Definition truthy (v : JsVal) : bool :=
  match v with
  | JUndefined | JNull => false
  | JBool b => b
  | JNum z => negb (z =? 0)
  | JStr s => negb (String.eqb s EmptyString)
  | JObject => true
  end.

(** [a || b] on strings that may be missing: the empty string is falsy. *)
Definition js_or (a b : option string) : option string :=
  match a with
  | Some s => if String.eqb s EmptyString then b else Some s
  | None => b
  end.

(** [s.includes(needle)] *)
Fixpoint includes (needle s : string) : bool :=
  String.prefix needle s
  || match s with
     | String _ s' => includes needle s'
     | EmptyString => false
     end.

(** [s.substring(n)] *)
Definition substring_from (n : nat) (s : string) : string :=
  String.substring n (String.length s - n) s.

(** Extract client information from request *)
Definition getClientInfo (event : Event) : string * string :=
  let hs := match headers event with Some h => h | None => ∅ end in
  let clientIp :=
    js_or (hs !! "x-forwarded-for"%string)
      (js_or (hs !! "x-real-ip"%string)
         (js_or (sourceIp event) (Some "127.0.0.1"%string))) in
  let userAgent := js_or (hs !! "user-agent"%string) (Some "Unknown"%string) in
  (match clientIp with Some s => s | None => "127.0.0.1"%string end,
   match userAgent with Some s => s | None => "Unknown"%string end).

(** [event.headers?.Authorization || event.headers?.authorization] *)
Definition authorization_header (event : Event) : option string :=
  let hs := match headers event with Some h => h | None => ∅ end in
  js_or (hs !! "Authorization"%string) (js_or (hs !! "authorization"%string) None).

(** The session token of a well-formed [Authorization] header; [None]
    when [!authHeader || !authHeader.startsWith('Bearer ')]. *)
Definition bearer_token (event : Event) : option string :=
  match authorization_header event with
  | Some h => if String.prefix "Bearer " h then Some (substring_from 7 h) else None
  | None => None
  end.

(** A synchronous computation that may throw, inside an [async] function. *)
Definition lift {A} (o : Outcome A) : M A := fun w => (o, w).

(** [SELECT id, email, name, password_hash, failed_login_attempts,
    locked_until FROM users WHERE email = $1] ([email] is UNIQUE). *)
Definition sql_select_user_by_email (e : string) : M (list (Z * UserRow)) := fun w =>
  (Return (List.filter (fun p => String.eqb (email (snd p)) e) (map_to_list (users w))), w).

Section Handlers.
Context {P : PgTypes}.

(** What the handlers take from outside the repository's own code and
    from columns of [users] they only read:
    - [error_message e] is [error.message];
    - [toLowerCase] is [String.prototype.toLowerCase];
    - [bcrypt_compare password hash] is [bcrypt.compare], which rejects
      when an argument is not a string;
    - [password_hash uid] is the column [password_hash] of the user row;
    - [stringify_device userAgent] is
      [JSON.stringify({ type: 'web', userAgent })];
    - [prepareValue v] is the text the database driver sends for a
      parameter that is not a string. *)
Variable error_message : Error -> string.
Variable toLowerCase : string -> string.
Variable bcrypt_compare : JsVal -> option string -> Outcome bool.
Variable password_hash : Z -> option string.
Variable stringify_device : string -> string.
Variable prepareValue : JsVal -> string.

Definition verifyPassword (password : JsVal) (hash : option string) : M bool :=
  lift (bcrypt_compare password hash).

Definition sql_param (v : JsVal) : string :=
  match v with
  | JStr s => s
  | _ => prepareValue v
  end.

(** [catch (error) { await logSecurityEvent(null, eventType, ..., false,
    { error: error.message, ... }); throw error; }] *)
Definition log_and_rethrow {A} (eventType clientIp userAgent : string)
    (more : list (string * Detail)) (error : Error) : M A :=
  let* _ := logSecurityEvent None eventType (Some clientIp) (Some userAgent) false
              (("error"%string, DStr (error_message error)) :: more) in
  throw error.

(** Handle user login *)
Definition handleLogin : Handler := fun event clientIp userAgent hdrs =>
  let* allowed := checkRateLimit clientIp "login" clientIp in
  if negb allowed then
    ret (mkResponse 429 hdrs
           (ErrorBody "Too many login attempts. Please try again later."))
  else
    let* fields := lift (body event) in
    let email_ := fields "email"%string in
    let password := fields "password"%string in
    if negb (truthy email_) || negb (truthy password) then
      ret (mkResponse 400 hdrs (ErrorBody "Email and password are required"))
    else
      let* lowered := match email_ with
                      | JStr s => ret (toLowerCase s)
                      | _ => throw TypeError     (* email.toLowerCase is not a function *)
                      end in
      let sanitizedEmail := sanitizeString lowered in
      try_catch
        (let* rows := db_query (sql_select_user_by_email sanitizedEmail) in
         match rows with
         | [] =>
             let* _ := logSecurityEvent None "login_invalid_email" (Some clientIp)
                         (Some userAgent) false
                         [("email"%string, DStr sanitizedEmail)] in
             ret (mkResponse 401 hdrs (ErrorBody "Invalid email or password"))
         | (uid, user) :: _ =>
             let* locked_ := checkAccountLockout uid in
             if locked_ then
               let* _ := logSecurityEvent (Some uid) "login_account_locked"
                           (Some clientIp) (Some userAgent) false [] in
               ret (mkResponse 423 hdrs
                      (ErrorBody "Account temporarily locked due to too many failed login attempts"))
             else
               let* isValidPassword := verifyPassword password (password_hash uid) in
               if negb isValidPassword then
                 let* lockoutInfo := handleFailedLogin uid clientIp userAgent in
                 ret (mkResponse 401 hdrs
                        (FailedLoginBody "Invalid email or password"
                           (Z.max 0 (5 - attempts lockoutInfo))))
               else
                 let* _ := handleSuccessfulLogin uid clientIp userAgent in
                 let* session := createSession uid (stringify_device userAgent)
                                   clientIp userAgent in
                 ret (mkResponse 200 hdrs
                        (LoginBody "Login successful" uid (email user) (name user)
                           (sessionToken session) (refreshToken session)
                           (expiresAt session)))
         end)
        (log_and_rethrow "login_error" clientIp userAgent
           [("email"%string, DStr sanitizedEmail)])
  .

(** Handle session refresh *)
Definition handleRefresh : Handler := fun event clientIp userAgent hdrs =>
  let* fields := lift (body event) in
  let token := fields "refreshToken"%string in
  if negb (truthy token) then
    ret (mkResponse 400 hdrs (ErrorBody "Refresh token required"))
  else
    try_catch
      (let* newSession := refreshSession (sql_param token) in
       match newSession with
       | None =>
           let* _ := logSecurityEvent None "session_refresh_invalid" (Some clientIp)
                       (Some userAgent) false [] in
           ret (mkResponse 401 hdrs (ErrorBody "Invalid or expired refresh token"))
       | Some s =>
           let* _ := logSecurityEvent (Some (new_userId s)) "session_refresh"
                       (Some clientIp) (Some userAgent) true [] in
           ret (mkResponse 200 hdrs
                  (RefreshBody "Session refreshed successfully" (new_sessionToken s)
                     (new_refreshToken s) (new_expiresAt s)))
       end)
      (log_and_rethrow "session_refresh_error" clientIp userAgent []).

(** Handle logout *)
Definition handleLogout : Handler := fun event clientIp userAgent hdrs =>
  match bearer_token event with
  | None => ret (mkResponse 400 hdrs (ErrorBody "Session token required"))
  | Some token =>
      try_catch
        (let* session := validateSession token in
         let* _ := revokeSession token in
         let* _ := match session with
                   | Some s => logSecurityEvent (Some (ctx_userId s)) "logout"
                                 (Some clientIp) (Some userAgent) true []
                   | None => ret tt
                   end in
         ret (mkResponse 200 hdrs (MessageBody "Logged out successfully")))
        (log_and_rethrow "logout_error" clientIp userAgent [])
  end.

(** Handle logout from all devices *)
Definition handleLogoutAll : Handler := fun event clientIp userAgent hdrs =>
  match bearer_token event with
  | None => ret (mkResponse 400 hdrs (ErrorBody "Session token required"))
  | Some token =>
      try_catch
        (let* session := validateSession token in
         match session with
         | None => ret (mkResponse 401 hdrs (ErrorBody "Invalid session"))
         | Some s =>
             let* _ := revokeAllUserSessions (ctx_userId s) in
             let* _ := logSecurityEvent (Some (ctx_userId s)) "logout_all"
                         (Some clientIp) (Some userAgent) true [] in
             ret (mkResponse 200 hdrs
                    (MessageBody "Logged out from all devices successfully"))
         end)
        (log_and_rethrow "logout_all_error" clientIp userAgent [])
  end.

(** The handlers of the module this development does not embed (they read
    and write columns and tables outside the model). *)
Variables handleRegister handleForgotPassword handleResetPassword
          handleChangePassword handleDemo handleLinkedInAuth handleGetProfile : Handler.

(** The dispatcher, over the handler that answers [/logout-all]. *)
Definition main_with (handleLogoutAll_ : Handler) (event : Event) : M Response :=
  let '(clientIp, userAgent) := getClientInfo event in
  try_catch
    (let httpMethod_ := httpMethod event in
     let path_ := path event in
     if String.eqb httpMethod_ "OPTIONS" then
       ret (mkResponse 200
              [("Access-Control-Allow-Origin", "*");
               ("Access-Control-Allow-Headers", "Content-Type,Authorization");
               ("Access-Control-Allow-Methods", "GET,POST,PUT,DELETE,OPTIONS")]%string
              NoBody)
     else
       let hdrs := [("Access-Control-Allow-Origin", "*");
                    ("Access-Control-Allow-Headers", "Content-Type,Authorization");
                    ("Content-Type", "application/json")]%string in
       let post := String.eqb httpMethod_ "POST" in
       if post && includes "/register" path_ then
         handleRegister event clientIp userAgent hdrs
       else if post && includes "/login" path_ then
         handleLogin event clientIp userAgent hdrs
       else if post && includes "/refresh" path_ then
         handleRefresh event clientIp userAgent hdrs
       else if post && includes "/logout" path_ then
         handleLogout event clientIp userAgent hdrs
       else if post && includes "/logout-all" path_ then
         handleLogoutAll_ event clientIp userAgent hdrs
       else if post && includes "/forgot-password" path_ then
         handleForgotPassword event clientIp userAgent hdrs
       else if post && includes "/reset-password" path_ then
         handleResetPassword event clientIp userAgent hdrs
       else if post && includes "/change-password" path_ then
         handleChangePassword event clientIp userAgent hdrs
       else if post && includes "/demo" path_ then
         handleDemo event clientIp userAgent hdrs
       else if post && includes "/user" path_ then
         handleLinkedInAuth event clientIp userAgent hdrs
       else if String.eqb httpMethod_ "GET" && includes "/me" path_ then
         handleGetProfile event clientIp userAgent hdrs
       else
         ret (mkResponse 404 hdrs (ErrorBody "Endpoint not found")))
    (fun error =>
       let* _ := logSecurityEvent None "auth_error" (Some clientIp) (Some userAgent)
                   false
                   [("error"%string, DStr (error_message error));
                    ("path"%string, DStr (path event))] in
       ret (mkResponse 500
              [("Access-Control-Allow-Origin", "*");
               ("Access-Control-Allow-Headers", "Content-Type,Authorization")]%string
              (ErrorDetailsBody "Authentication failed" (error_message error)))).

(** [exports.main] *)
Definition main : Event -> M Response := main_with handleLogoutAll.

End Handlers.

(** ** Encrypted data at rest

    [storeEncryptedData] and [retrieveEncryptedData] work on the table
    [encrypted_data], through the same [db] as the rest of the module. *)

(** A row of [encrypted_data].  The column of the same name holds
    [JSON.stringify] of the record [encrypt] returned, an object of five
    strings, which [JSON.parse] gives back field by field: the row keeps
    the record.  [user_id] references [users]; ids are INTEGER values. *)
Record DataRow := mkDataRow {
  d_id : Z;
  d_user_id : Z;
  d_data_type : string;
  d_encrypted_data : EncryptedData;
  d_encryption_key_id : string;
  d_created_at : Z
}.

(** The store with that table and its sequence, and the source of
    [crypto.randomBytes(16)]: [randomBytes16 n] is the [n]-th buffer
    drawn. *)
Record Vault := mkVault {
  world : World;
  encrypted_data : list DataRow;
  encrypted_data_seq : Z;
  randomBytes16 : nat -> Buffer;
  draws16 : nat
}.

Definition with_world (w : World) (v : Vault) : Vault :=
  mkVault w (encrypted_data v) (encrypted_data_seq v) (randomBytes16 v) (draws16 v).

Definition V (A : Type) : Type := Vault -> Outcome A * Vault.

Definition retV {A} (a : A) : V A := fun v => (Return a, v).

Definition throwV {A} (e : Error) : V A := fun v => (Throw e, v).

Definition liftV {A} (o : Outcome A) : V A := fun v => (o, v).

Definition bindV {A B} (c : V A) (k : A -> V B) : V B := fun v =>
  match c v with
  | (Return a, v') => k a v'
  | (Throw e, v') => (Throw e, v')
  end.

Definition try_catchV {A} (body_ : V A) (handler : Error -> V A) : V A := fun v =>
  match body_ v with
  | (Return a, v') => (Return a, v')
  | (Throw e, v') => handler e v'
  end.

Notation "'let+' x ':=' c 'in' k" := (bindV c (fun x => k))
  (at level 10, x pattern, c at level 100, k at level 200).

(** [db.query(statement)] on a statement over [encrypted_data]: the fault
    schedule is the one of [world]. *)
Definition vault_query {A} (statement : V A) : V A := fun v =>
  match faults (world v) with
  | true :: fs => (Throw DbError, with_world (set_faults fs (world v)) v)
  | false :: fs => statement (with_world (set_faults fs (world v)) v)
  | [] => statement v
  end.

(** [crypto.randomBytes(16)] *)
Definition randomBytes_16 : V Buffer := fun v =>
  (Return (randomBytes16 v (draws16 v)),
   mkVault (world v) (encrypted_data v) (encrypted_data_seq v) (randomBytes16 v)
           (S (draws16 v))).

(** [INSERT INTO encrypted_data (user_id, data_type, encrypted_data,
    encryption_key_id) VALUES ($1, $2, $3, $4) RETURNING id]: [id] comes
    from the sequence and is the primary key, [user_id] references
    [users], [data_type] is VARCHAR(50), [encryption_key_id] VARCHAR(64),
    [created_at] takes its default. *)
Definition sql_insert_encrypted (userId : Z) (dataType : string)
    (encryptedData : EncryptedData) (keyId_ : string) : V (list Z) := fun v =>
  let now := clock (world v) in
  let new_id := encrypted_data_seq v in
  let table := encrypted_data v in
  if is_some (users (world v) !! userId)
     && (String.length dataType <=? 50)%nat
     && (String.length keyId_ <=? 64)%nat
     && negb (existsb (fun r => d_id r =? new_id) table)
  then
    (Return [new_id],
     mkVault (tick (world v))
             (table ++ [mkDataRow new_id userId dataType encryptedData keyId_ now])
             (new_id + 1) (randomBytes16 v) (draws16 v))
  else
    (Throw DbError,
     mkVault (tick (world v)) table (new_id + 1) (randomBytes16 v) (draws16 v)).

(** [SELECT encrypted_data, encryption_key_id FROM encrypted_data
    WHERE id = $1 AND user_id = $2] *)
Definition sql_select_encrypted_by_id (encryptedDataId userId : Z)
    : V (list EncryptedData) := fun v =>
  (Return (map d_encrypted_data
             (List.filter (fun r => (d_id r =? encryptedDataId) && (d_user_id r =? userId))
                          (encrypted_data v))), v).

(** The row with the greatest [created_at], as [latest] for [rate_limits]:
    among equal ones the earliest in the table (PostgreSQL does not fix
    their order). *)
Fixpoint newest (rows : list DataRow) : option DataRow :=
  match rows with
  | [] => None
  | r :: rest =>
      match newest rest with
      | Some r' => if d_created_at r <? d_created_at r' then Some r' else Some r
      | None => Some r
      end
  end.

(** [SELECT encrypted_data, encryption_key_id FROM encrypted_data
    WHERE user_id = $1 AND data_type = $2 ORDER BY created_at DESC LIMIT 1] *)
Definition sql_select_latest_encrypted (userId : Z) (dataType : string)
    : V (list EncryptedData) := fun v =>
  (Return (match newest (List.filter
                           (fun r => (d_user_id r =? userId)
                                     && String.eqb (d_data_type r) dataType)
                           (encrypted_data v)) with
           | Some r => [d_encrypted_data r]
           | None => []
           end), v).

Section EncryptedStorage.
Context {C : NodeCrypto}.

(** [const encryptionManager = new EncryptionManager()] *)
Variable encryptionManager : EncryptionManager.

(** [encryptionManager.encrypt(data)]: the salt and the iv are drawn
    before anything can throw. *)
Definition encryptionManager_encrypt (data : Value) : V EncryptedData :=
  let+ salt_ := randomBytes_16 in
  let+ iv_ := randomBytes_16 in
  liftV (encrypt encryptionManager salt_ iv_ data).

Definition storeEncryptedData (userId : Z) (dataType : string) (data : Value) : V Z :=
  try_catchV
    (let+ encryptedData := encryptionManager_encrypt data in
     let+ rows := vault_query (sql_insert_encrypted userId dataType encryptedData
                                 (keyId encryptedData)) in
     match rows with
     | new_id :: _ => retV new_id
     | [] => throwV TypeError
     end)
    (fun _ => throwV (Err "Failed to store encrypted data")).

(** [encryptedDataId] is [None] for [null] and for a call with two
    arguments; the id 0 is falsy as well.  The result [None] is [null];
    a stored [null] comes back as [Some] of it. *)
Definition retrieveEncryptedData (userId : Z) (dataType : string)
    (encryptedDataId : option Z) : V (option Value) :=
  try_catchV
    (let by_id := match encryptedDataId with
                  | Some id_ => if id_ =? 0 then None else Some id_
                  | None => None
                  end in
     let+ rows := vault_query (match by_id with
                               | Some id_ => sql_select_encrypted_by_id id_ userId
                               | None => sql_select_latest_encrypted userId dataType
                               end) in
     match rows with
     | [] => retV None
     | row :: _ =>
         let+ data := liftV (decrypt encryptionManager row) in
         retV (Some data)
     end)
    (fun _ => throwV (Err "Failed to retrieve encrypted data")).

End EncryptedStorage.

(** * Vocabulary of the statements *)

(** What a call that only appends to the audit log leaves alone. *)
Definition audit_frame (w w' : World) : Prop :=
  users w' = users w /\ user_sessions w' = user_sessions w /\
  rate_limits w' = rate_limits w /\ session_seq w' = session_seq w /\
  randomBytes w' = randomBytes w /\ draws w' = draws w /\
  faults w' = tl (faults w) /\ clock w <= clock w'.

(** Two worlds with the same users, sessions and rate limits. *)
Definition same_tables (w1 w2 : World) : Prop :=
  users w1 = users w2 /\ user_sessions w1 = user_sessions w2 /\
  rate_limits w1 = rate_limits w2.

(** Same outcome, same users, sessions and rate limits. *)
Definition agree {A} (r1 r2 : Outcome A * World) : Prop :=
  fst r1 = fst r2 /\ same_tables (snd r1) (snd r2).

(** The [locked_until] that a failed login at time [now] leaves on row [u]. *)
Definition lockout_of (now : Z) (u : UserRow) : option Z :=
  if ACCOUNT_LOCKOUT.threshold <=? failed_login_attempts u + 1
  then Some (now + ACCOUNT_LOCKOUT.duration) else locked_until u.

(** The rows of [rate_limits] for one (identifier, endpoint) pair. *)
Definition pair_rows (ident ep : string) (w : World) : list RateLimitRow :=
  filter (fun r => for_pair ident ep r = true) (rate_limits w).



(** Entries of the fault schedule the run from [w] to [w'] has used up,
    one per query issued while the schedule lasted. *)
Definition consumed (w w' : World) : nat :=
  (length (faults w) - length (faults w'))%nat.

(** One of the first [k] queries that [c] issues from [w] is rejected. *)
Definition rejected_within {A} (k : nat) (c : M A) (w : World) : Prop :=
  exists n, (n < k)%nat /\ (n < consumed w (snd (c w)))%nat /\ faults w !! n = Some true.

(** Some query that [c] issues from [w] is rejected. *)
Definition query_rejected {A} (c : M A) (w : World) : Prop :=
  exists n, (n < consumed w (snd (c w)))%nat /\ faults w !! n = Some true.

(** The limit of 5 logins is reached inside the window; the SELECT and the
    UPDATE succeed, the audit insert is rejected. *)
Definition over_limit_world : World :=
  mkWorld ∅ [] [mkRateLimit "1.2.3.4" "login" 5 1000 None 1000 1000] [] 1 2000 []
          [false; false; true] (fun _ => EmptyString) 0.

(** Every character; every string of [n] characters; every string of at
    most [n] characters. *)
Definition all_ascii : list Ascii.ascii := map Ascii.ascii_of_nat (seq 0 256).

Fixpoint words (n : nat) : list string :=
  match n with
  | O => [EmptyString]
  | S n' => flat_map (fun a => map (String a) (words n')) all_ascii
  end.

Definition words_upto (n : nat) : list string := flat_map words (seq 0 (S n)).

(** The master key made of [n] times the letter a. *)
Fixpoint key_of_length (n : nat) : string :=
  match n with
  | O => EmptyString
  | S n' => String (Ascii.ascii_of_nat 97) (key_of_length n')
  end.


(** The refresh token outlives the access token. *)
Definition session_ok (s : SessionRow) : Prop := expires_at s < refresh_expires_at s.

(** A call of one of the five session functions of the module. *)
Inductive SessionCall :=
  | CallCreate (userId : Z) (deviceInfo ipAddress userAgent : string)
  | CallValidate (stoken : string)
  | CallRefresh (rtoken : string)
  | CallRevoke (stoken : string)
  | CallRevokeAll (userId : Z).

(** The world after the call (its result is dropped). *)
Definition run_call {P : PgTypes} (c : SessionCall) (w : World) : World :=
  match c with
  | CallCreate u d i a => snd (createSession u d i a w)
  | CallValidate t => snd (validateSession t w)
  | CallRefresh t => snd (refreshSession t w)
  | CallRevoke t => snd (revokeSession t w)
  | CallRevokeAll u => snd (revokeAllUserSessions u w)
  end.

Definition run_calls {P : PgTypes} (cs : list SessionCall) (w : World) : World :=
  fold_left (fun w c => run_call c w) cs w.

(** The rows the SELECT of [validateSession] returns at time [now]. *)
Definition valid_rows (stoken : string) (now : Z) (us : gmap Z UserRow)
    (ss : list SessionRow) : list SessionContext :=
  omap (fun s =>
     if String.eqb (session_token s) stoken && is_active s && (now <? expires_at s)
     then match us !! user_id s with
          | Some u => Some (mkSessionContext (s_id s) (user_id s) (email u) (name u)
                                             (expires_at s) (refresh_expires_at s))
          | None => None
          end
     else None) ss.

(** Row [s] with [is_active = false]. *)
Definition deactivate (s : SessionRow) : SessionRow :=
  mkSession (s_id s) (user_id s) (session_token s) (refresh_token s)
            (device_info s) (ip_address s) (user_agent s) (expires_at s)
            (refresh_expires_at s) (created_at s) (last_used s) false.

(** An active session that expires well after the demonstration clocks. *)
Definition demo_session (sid uid : Z) (stoken rtoken : string) : SessionRow :=
  mkSession sid uid stoken rtoken "web" "10.0.0.1" "agent" 86401000 604801000 1000 1000 true.

(** Two owners with one valid session each. *)
Definition two_owner_world : World :=
  mkWorld {[ 1 := demo_user; 2 := mkUser "d@e.f" (Some "Dee"%string) 0 None None ]}
          [demo_session 1 1 "s1" "r1"; demo_session 2 2 "s2" "r2"] [] [] 3 2000
          [3%N; 4%N; 5%N; 6%N] [] demo_token 0.

(** The schema's constraints on [user_sessions]: primary key [id], UNIQUE
    [session_token], UNIQUE [refresh_token]. *)
Definition sessions_wf (ss : list SessionRow) : Prop :=
  NoDup (map s_id ss) /\ NoDup (map session_token ss) /\ NoDup (map refresh_token ss).

(** Row [s] after the UPDATE of [refreshSession]. *)
Definition rotate (stoken rtoken : string) (expires refreshExpires now : Z)
    (s : SessionRow) : SessionRow :=
  mkSession (s_id s) (user_id s) stoken rtoken (device_info s) (ip_address s)
            (user_agent s) expires refreshExpires (created_at s) now (is_active s).

(** The language of a pattern. *)
Inductive star (L : list Ascii.ascii -> Prop) : list Ascii.ascii -> Prop :=
  | star_nil : star L []
  | star_app s1 s2 : L s1 -> star L s2 -> star L (s1 ++ s2).

Fixpoint lang (r : regex) (s : list Ascii.ascii) : Prop :=
  match r with
  | Nothing => False
  | Eps => s = []
  | Cls p => exists a, s = [a] /\ p a = true
  | Cat r1 r2 => exists s1 s2, s = s1 ++ s2 /\ lang r1 s1 /\ lang r2 s2
  | Alt r1 r2 => lang r1 s \/ lang r2 s
  | And r1 r2 => lang r1 s /\ lang r2 s
  | Star r1 => star (lang r1) s
  end.

(** The password rule in plain terms: at least eight code units, all of
    them letters, digits or one of [@$!%*?&], with at least one lower-case
    letter, one upper-case letter, one digit and one of the specials. *)
Definition password_rule (password : string) : bool :=
  let l := String.list_ascii_of_string password in
  (8 <=? length l)%nat && forallb is_password_char l
  && existsb is_lower l && existsb is_upper l && existsb is_digit l
  && existsb is_special l.

(** The code unit a one-character literal denotes. *)
Definition chr (c : string) : Ascii.ascii :=
  match c with
  | String a _ => a
  | EmptyString => Ascii.zero
  end.

(** The string before the first [@] and the string after it. *)
Fixpoint split_at_sign (l : list Ascii.ascii)
    : option (list Ascii.ascii * list Ascii.ascii) :=
  match l with
  | [] => None
  | a :: l' =>
      if is_char "@" a then Some ([], l')
      else match split_at_sign l' with
           | Some (x, y) => Some (a :: x, y)
           | None => None
           end
  end.

Definition nonempty {A} (l : list A) : bool :=
  match l with [] => false | _ => true end.

(** The e-mail rule in plain terms: there is an [@]; what precedes the
    first one is not empty; neither part holds white space or another
    [@]; and the part after it holds a dot that is neither its first nor
    its last code unit. *)
Definition email_rule (email_ : string) : bool :=
  match split_at_sign (String.list_ascii_of_string email_) with
  | None => false
  | Some (local, domain) =>
      nonempty local && forallb not_space_at local && forallb not_space_at domain
      && existsb (is_char ".") (removelast (tl domain))
  end.

(** Row [s] after [UPDATE user_sessions SET last_used = now WHERE id = sid]. *)
Definition touch (sid now : Z) (s : SessionRow) : SessionRow :=
  if s_id s =? sid
  then mkSession (s_id s) (user_id s) (session_token s) (refresh_token s)
                 (device_info s) (ip_address s) (user_agent s) (expires_at s)
                 (refresh_expires_at s) (created_at s) now (is_active s)
  else s.

(** A request that carries [Authorization: Bearer <token>] and nothing else. *)
Definition bearer_event (method path_ token : string) : Event :=
  mkEvent method path_ (Some {[ "Authorization"%string := ("Bearer " ++ token)%string ]})
          None (Return (fun _ => JUndefined)).

(** What a call that writes only [rate_limits] and the audit log leaves
    alone; a healthy store stays healthy. *)
Definition limiter_frame (w w' : World) : Prop :=
  users w' = users w /\ user_sessions w' = user_sessions w /\
  session_seq w' = session_seq w /\ randomBytes w' = randomBytes w /\
  draws w' = draws w /\ (faults w = [] -> faults w' = []) /\ clock w <= clock w'.

(** A login request with the given e-mail and password. *)
Definition login_event (email_ password : string) : Event :=
  mkEvent "POST" "/auth/login" None None
    (Return (fun k => if String.eqb k "email" then JStr email_
                      else if String.eqb k "password" then JStr password
                      else JUndefined)).

(** One user, "a@b.c", whose password is "Secret1!". *)
Definition demo_bcrypt (password : JsVal) (hash : option string) : Outcome bool :=
  match password, hash with
  | JStr p, Some h => Return (String.eqb p h)
  | _, _ => Throw (Err "data and hash must be strings")
  end.

Definition demo_hash (uid : Z) : option string :=
  if uid =? 1 then Some "Secret1!"%string else None.

(** The request body parses to an object whose [email] is the non-empty
    string [e0] and whose [password] is truthy. *)
Definition login_inputs (event : Event) (e0 : string) (password : JsVal) : Prop :=
  exists fields, body event = Return fields
    /\ fields "email"%string = JStr e0 /\ e0 <> EmptyString
    /\ fields "password"%string = password /\ truthy password = true.

(** [uid] is the one user whose e-mail is [e]. *)
Definition only_user_with (us : gmap Z UserRow) (uid : Z) (u : UserRow) (e : string) : Prop :=
  us !! uid = Some u /\ email u = e
  /\ forall uid' u', us !! uid' = Some u' -> email u' = e -> uid' = uid.

(** The user of [demo_world] after five failures, locked until 5000. *)
Definition locked_world : World :=
  mkWorld {[ 1 := mkUser "a@b.c" None 5 (Some 5000) None ]} [] [] [] 1 1000
          [5%N; 7%N] [] demo_token 0.

(** [demo_world] with the login limit of "1.2.3.4" used up. *)
Definition limited_world : World :=
  mkWorld {[ 1 := demo_user ]} []
          [mkRateLimit "1.2.3.4" "login" 5 1000 None 1000 1000] [] 1 2000 []
          [] demo_token 0.

(** A refresh request carrying [token]. *)
Definition refresh_event (token : JsVal) : Event :=
  mkEvent "POST" "/auth/refresh" None None
    (Return (fun k => if String.eqb k "refreshToken" then token else JUndefined)).

(** [two_owner_world] while the store rejects the next query. *)
Definition outage_world : World :=
  mkWorld {[ 1 := demo_user; 2 := mkUser "d@e.f" (Some "Dee"%string) 0 None None ]}
          [demo_session 1 1 "s1" "r1"; demo_session 2 2 "s2" "r2"] [] [] 3 2000
          [3%N; 4%N; 5%N; 6%N] [true] demo_token 0.


(** [demo_world] with an empty [encrypted_data] and a source of salts. *)
Definition demo_vault : Vault :=
  mkVault demo_world [] 1 (fun n => repeat x01 (S n)) 0.

Definition demo_manager : EncryptionManager := mkEncryptionManager "key-one".

(** [demo_vault] holding one row of user 2, with id 7. *)
Definition shared_vault : Vault :=
  mkVault two_owner_world
          [mkDataRow 7 2 "api_key"
             (mkEncryptedData "secret" EmptyString EmptyString EmptyString "key-one")
             "key-one" 1500]
          8 (fun n => repeat x01 (S n)) 0.


(** Whenever [c] returns a response, the response satisfies [P]. *)
Definition answers (P : Response -> Prop) (c : M Response) : Prop :=
  forall w, match fst (c w) with Return r => P r | Throw _ => True end.

(** A login request that carries an [x-forwarded-for] header. *)
Definition forwarded_login (address email_ password : string) : Event :=
  mkEvent "POST" "/auth/login" (Some {[ "x-forwarded-for"%string := address ]}) None
    (Return (fun k => if String.eqb k "email" then JStr email_
                      else if String.eqb k "password" then JStr password
                      else JUndefined)).

(** * Proofs *)

(** ** The functions on small inputs *)

Example five_failures_lock :
  let '(r, w) := repeatM 5 (handleFailedLogin 1 "ip" "agent") demo_world in
  fst (checkAccountLockout 1 w) = Return true
  /\ users w !! 1 = Some (mkUser "a@b.c" None 5 (Some (1012 + 1800000)) None).
Proof. vm_compute. split; reflexivity. Qed.

Example seven_logins_from_one_address :
  fst (repeatM 7 (checkRateLimit "1.2.3.4" "login" "1.2.3.4") demo_world)
  = Return [true; true; true; true; true; false; false].
Proof. reflexivity. Qed.

Example unlimited_endpoint :
  checkRateLimit "1.2.3.4" "logout" "1.2.3.4" demo_world = (Return true, demo_world).
Proof. reflexivity. Qed.

(** An inherited property name passes for a limit with no numbers: the
    check writes a row and allows every request. *)
Example inherited_endpoint :
  fst (repeatM 3 (checkRateLimit "1.2.3.4" "toString" "1.2.3.4") demo_world)
  = Return [true; true; true].
Proof. reflexivity. Qed.

Example create_validate_refresh :
  let '(r0, w0) := createSession (P := demo_pg) 1 "web" "10.0.0.1" "agent" demo_world in
  let '(r1, w1) := validateSession "Atok" w0 in
  let '(r2, w2) := refreshSession "Btok" w1 in
  r0 = Return (mkSessionInfo 1 "Atok" "Btok" 86401000 604801005)
  /\ r1 = Return (Some (mkSessionContext 1 1 "a@b.c" None 86401000 604801005))
  /\ r2 = Return (Some (mkRefreshInfo 1 1 "Ctok" "Dtok" 86401012 604801012))
  /\ fst (validateSession "Atok" w2) = Return None
  /\ fst (refreshSession "Btok" w2) = Return None.
Proof. vm_compute. repeat split; reflexivity. Qed.

(** In [over_limit_world] the check issues three queries; the third, the
    audit insert, is rejected: nothing is logged, the pair is blocked and
    the request is denied. *)
Example over_limit_with_audit_fault :
  let '(r, w) := checkRateLimit "1.2.3.4" "login" "1.2.3.4" over_limit_world in
  r = Return false /\ faults w = [] /\ security_audit_log w = []
  /\ rate_limits w = [mkRateLimit "1.2.3.4" "login" 5 1000 (Some 902000) 1000 1000].
Proof. vm_compute. repeat split; reflexivity. Qed.

(** ** Audit logging *)

Lemma tick_clock w : clock w <= clock (tick w).
Proof. unfold tick; simpl. lia. Qed.

Lemma logSecurityEvent_returns uid ev ip ua ok d w :
  exists w', logSecurityEvent uid ev ip ua ok d w = (Return tt, w') /\ audit_frame w w'.
Proof.
  unfold logSecurityEvent, try_catch, db_query, sql_insert_audit, bind, NOW, new_Date, ret.
  destruct (faults w) as [|[] fs] eqn:Hf; simpl.
  - destruct uid as [u|]; [destruct (users w !! u)|];
      (eexists; split; [reflexivity|]); unfold audit_frame; simpl; rewrite ?Hf;
      repeat split; auto; lia.
  - eexists; split; [reflexivity|]. unfold audit_frame; simpl; rewrite Hf.
    repeat split; auto; lia.
  - destruct uid as [u|]; [destruct (users w !! u)|];
      (eexists; split; [reflexivity|]); unfold audit_frame; simpl; rewrite ?Hf;
      repeat split; auto; lia.
Qed.

Arguments logSecurityEvent : simpl never.

(** Bind through every call of [logSecurityEvent] in the goal: it
    returns, and what it leaves behind has the tables of the world it
    started from. *)
Ltac step_log :=
  repeat match goal with
  | |- context [logSecurityEvent ?a ?b ?c ?d ?e ?f ?w] =>
      let H := fresh "Hframe" in
      destruct (logSecurityEvent_returns a b c d e f w) as (? & -> & H);
      destruct H as (? & ? & ? & ? & ? & ? & ? & ?)
  end; simpl in *.

Lemma handleSuccessfulLogin_agree uid ip ua w b1 rest :
  agree (handleSuccessfulLogin uid ip ua (set_faults (b1 :: true :: rest) w))
        (handleSuccessfulLogin uid ip ua (set_faults (b1 :: false :: rest) w)).
Proof.
  unfold agree, same_tables, handleSuccessfulLogin, try_catch,
    db_query, sql_record_success, bind, NOW, new_Date, ret.
  destruct b1; simpl; [auto|].
  step_log. repeat split; congruence.
Qed.

Lemma handleFailedLogin_agree uid ip ua w b1 rest :
  agree (handleFailedLogin uid ip ua (set_faults (b1 :: true :: rest) w))
        (handleFailedLogin uid ip ua (set_faults (b1 :: false :: rest) w)).
Proof.
  unfold agree, same_tables, handleFailedLogin, try_catch,
    db_query, sql_record_failure, bind, NOW, new_Date, ret, throw.
  destruct b1; simpl; [auto|].
  destruct (users w !! uid) as [u|]; simpl; [|auto].
  destruct (INT_MAX <? _); simpl; [auto|].
  step_log. repeat split; congruence.
Qed.

Lemma checkRateLimit_agree ident ep ip w b1 b2 rest :
  agree (checkRateLimit ident ep ip (set_faults (b1 :: b2 :: true :: rest) w))
        (checkRateLimit ident ep ip (set_faults (b1 :: b2 :: false :: rest) w)).
Proof.
  unfold agree, same_tables, checkRateLimit.
  destruct (RATE_LIMITS ep) as [limit|]; [|simpl; auto].
  unfold try_catch, db_query, sql_select_rate_limit, sql_block,
    sql_increment, sql_reset_window, sql_insert_rate_limit,
    bind, NOW, new_Date, ret, throw.
  destruct b1; simpl; [auto|].
  destruct (latest _) as [r|]; simpl;
    [|destruct b2; simpl; auto; destruct (varchar 255 ident), (varchar 255 ep); simpl; auto].
  destruct (match blocked_until r with Some b => clock w <? b | None => false end);
    simpl; [auto|].
  destruct (js_gt _ _); simpl; [|destruct b2; simpl; auto].
  destruct (js_ge _ _); simpl.
  - destruct b2; simpl; [auto|]. destruct (js_add _ _); simpl; [|auto].
    step_log. repeat split; congruence.
  - destruct b2; simpl; [auto|]. destruct (existsb _ _); simpl; auto.
Qed.

(** C8. A failure of the insert into [security_audit_log] never leaves
    [logSecurityEvent]: the call returns normally from every world, whatever
    the fault schedule, and touches no table but the audit log.  Hence the
    three functions of the module that log ([handleSuccessfulLogin],
    [handleFailedLogin], [checkRateLimit]) give the same outcome and the
    same users, sessions and rate limits whether the audit insert (the
    second, second and third query they issue) is rejected or not. *)
Theorem audit_failure_is_swallowed :
  (forall uid ev ip ua ok d w,
     exists w', logSecurityEvent uid ev ip ua ok d w = (Return tt, w') /\ audit_frame w w') /\
  (forall uid ip ua w b1 rest,
     agree (handleSuccessfulLogin uid ip ua (set_faults (b1 :: true :: rest) w))
           (handleSuccessfulLogin uid ip ua (set_faults (b1 :: false :: rest) w))) /\
  (forall uid ip ua w b1 rest,
     agree (handleFailedLogin uid ip ua (set_faults (b1 :: true :: rest) w))
           (handleFailedLogin uid ip ua (set_faults (b1 :: false :: rest) w))) /\
  (forall ident ep ip w b1 b2 rest,
     agree (checkRateLimit ident ep ip (set_faults (b1 :: b2 :: true :: rest) w))
           (checkRateLimit ident ep ip (set_faults (b1 :: b2 :: false :: rest) w))).
Proof.
  split; [exact logSecurityEvent_returns|].
  split; [exact handleSuccessfulLogin_agree|].
  split; [exact handleFailedLogin_agree|exact checkRateLimit_agree].
Qed.

(** ** Account lockout *)

Lemma handleFailedLogin_run w uid u ip ua :
  faults w = [] -> users w !! uid = Some u ->
  failed_login_attempts u + 1 <= INT_MAX ->
  exists w',
    handleFailedLogin uid ip ua w =
      (Return (mkFailedLoginInfo (failed_login_attempts u + 1)
                 (is_some (lockout_of (clock w) u)) (lockout_of (clock w) u)), w')
    /\ users w' = <[uid := mkUser (email u) (name u) (failed_login_attempts u + 1)
                             (lockout_of (clock w) u) (last_login u)]> (users w)
    /\ faults w' = [] /\ clock w <= clock w'.
Proof.
  intros Hf Hu Hmax.
  unfold handleFailedLogin, try_catch, db_query, sql_record_failure, bind, NOW,
    new_Date, ret, throw.
  rewrite Hf; simpl. rewrite Hu.
  destruct (INT_MAX <? failed_login_attempts u + 1) eqn:E; [lia|]. simpl.
  step_log. eexists; split; [reflexivity|].
  pose proof (tick_clock w).
  repeat split; try lia.
  - assumption.
  - rewrite Hf in *; assumption.
Qed.

(** A check while the lockout is pending: locked, nothing written. *)
Lemma checkAccountLockout_locked w uid u l :
  faults w = [] -> users w !! uid = Some u -> locked_until u = Some l ->
  clock w < l ->
  exists w', checkAccountLockout uid w = (Return true, w')
    /\ users w' = users w /\ faults w' = [] /\ clock w <= clock w'.
Proof.
  intros Hf Hu Hl Hlt.
  unfold checkAccountLockout, try_catch, db_query, sql_select_lockout, bind, ret.
  rewrite Hf; simpl. rewrite Hu, Hl; simpl.
  destruct (clock w <? l) eqn:E; [|lia]. simpl.
  eexists; split; [reflexivity|]. pose proof (tick_clock w). auto.
Qed.

(** A check once the lockout has run out: not locked, counter and
    lockout cleared. *)
Lemma checkAccountLockout_expired w uid u l :
  faults w = [] -> users w !! uid = Some u -> locked_until u = Some l ->
  l <= clock w ->
  exists w', checkAccountLockout uid w = (Return false, w')
    /\ users w' = <[uid := mkUser (email u) (name u) 0 None (last_login u)]> (users w)
    /\ faults w' = [] /\ clock w <= clock w'.
Proof.
  intros Hf Hu Hl Hle.
  unfold checkAccountLockout, try_catch, db_query, sql_select_lockout,
    sql_clear_lockout, bind, ret.
  rewrite Hf; simpl. rewrite Hu, Hl; simpl.
  destruct (clock w <? l) eqn:E; [lia|]. simpl.
  pose proof (tick_clock w) as T1. pose proof (tick_clock (tick w)) as T2.
  destruct (l <=? clock w + Z.of_N (hd 0%N (ticks w))) eqn:E2; [|simpl in *; lia].
  simpl. rewrite Hf; simpl.
  eexists; split; [reflexivity|]. simpl in *. rewrite Hu. repeat split; auto; lia.
Qed.

(** Failures that stay below the threshold only count. *)
Lemma failures_below_threshold uid ip ua n :
  forall w u,
    faults w = [] -> users w !! uid = Some u -> locked_until u = None ->
    failed_login_attempts u + Z.of_nat n < ACCOUNT_LOCKOUT.threshold ->
    exists infos w',
      repeatM n (handleFailedLogin uid ip ua) w = (Return infos, w')
      /\ faults w' = [] /\ clock w <= clock w'
      /\ users w' !! uid =
           Some (mkUser (email u) (name u) (failed_login_attempts u + Z.of_nat n)
                        None (last_login u)).
Proof.
  induction n as [|n IH]; intros w u Hf Hu Hl Hn.
  - exists [], w. simpl. repeat split; auto; try lia.
    rewrite Hu. destruct u; simpl in *. subst. f_equal. f_equal. lia.
  - unfold ACCOUNT_LOCKOUT.threshold in *.
    destruct (handleFailedLogin_run w uid u ip ua Hf Hu) as (w1 & Hrun & Hus & Hf1 & Hc1);
      [unfold INT_MAX; lia|].
    assert (Hlk : lockout_of (clock w) u = None).
    { unfold lockout_of, ACCOUNT_LOCKOUT.threshold.
      destruct (5 <=? failed_login_attempts u + 1) eqn:E; [lia|assumption]. }
    rewrite Hlk in *.
    destruct (IH w1 (mkUser (email u) (name u) (failed_login_attempts u + 1) None
                            (last_login u)))
      as (infos & w' & Hrep & Hf' & Hc' & Hu'); auto.
    { rewrite Hus. apply lookup_insert_eq. }
    { simpl. lia. }
    simpl in Hu'.
    eexists _, w'. simpl repeatM. unfold bind at 1. rewrite Hrun.
    unfold bind at 1. rewrite Hrep. unfold ret.
    split; [reflexivity|]. repeat split; auto; try lia.
    rewrite Hu'. f_equal. f_equal. lia.
Qed.

(** C1. Five consecutive failed logins on an account that starts with no
    failure and no lockout leave it with five failures and a lockout that
    ends thirty minutes after the time [t5] of the fifth failure.  In any
    later world where the account's row is as those failures left it,
    [checkAccountLockout] answers [true] and leaves the users as they are
    as long as the clock is before [t5 + 30 min] (so the same holds for the
    next check), and once the clock has reached it the check answers
    [false] and resets the counter to 0 and the lockout to [NULL]. *)
Theorem lockout_after_five_failures w uid u ip ua :
  faults w = [] -> users w !! uid = Some u ->
  failed_login_attempts u = 0 -> locked_until u = None ->
  exists infos w5 t5,
    repeatM 5 (handleFailedLogin uid ip ua) w = (Return infos, w5)
    /\ last infos = Some (mkFailedLoginInfo 5 true (Some (t5 + 30 * 60 * 1000)))
    /\ clock w <= t5 <= clock w5
    /\ users w5 !! uid =
         Some (mkUser (email u) (name u) 5 (Some (t5 + 30 * 60 * 1000)) (last_login u))
    /\ (forall w', faults w' = [] -> users w' !! uid = users w5 !! uid ->
          clock w' < t5 + 30 * 60 * 1000 ->
          exists w'', checkAccountLockout uid w' = (Return true, w'')
                      /\ users w'' = users w' /\ faults w'' = [])
    /\ (forall w', faults w' = [] -> users w' !! uid = users w5 !! uid ->
          t5 + 30 * 60 * 1000 <= clock w' ->
          exists w'', checkAccountLockout uid w' = (Return false, w'')
                      /\ users w'' !! uid =
                           Some (mkUser (email u) (name u) 0 None (last_login u))).
Proof.
  intros Hf Hu Ha Hl.
  destruct (failures_below_threshold uid ip ua 4 w u Hf Hu Hl)
    as (infos4 & w4 & Hrep & Hf4 & Hc4 & Hu4).
  { rewrite Ha. unfold ACCOUNT_LOCKOUT.threshold. lia. }
  rewrite Ha in Hu4. simpl in Hu4.
  destruct (handleFailedLogin_run w4 uid _ ip ua Hf4 Hu4) as (w5 & Hrun & Hus & Hf5 & Hc5).
  { simpl. unfold INT_MAX. lia. }
  simpl in Hrun, Hus. unfold lockout_of in Hrun, Hus. simpl in Hrun, Hus.
  exists (infos4 ++ [mkFailedLoginInfo 5 true (Some (clock w4 + 30 * 60 * 1000))]), w5, (clock w4).
  assert (Hrow : users w5 !! uid =
            Some (mkUser (email u) (name u) 5 (Some (clock w4 + 30 * 60 * 1000)) (last_login u))).
  { rewrite Hus. apply lookup_insert_eq. }
  split; [|split; [apply last_snoc|split; [lia|split; [exact Hrow|split]]]].
  - change 5%nat with (4 + 1)%nat.
    clear - Hrep Hrun. revert Hrep. generalize 4%nat as n. intros n. revert w infos4.
    induction n as [|n IH]; intros w infos4 Hrep.
    + simpl in Hrep. unfold ret in Hrep. injection Hrep as <- <-.
      simpl. unfold bind, ret. rewrite Hrun. reflexivity.
    + simpl in Hrep |- *. unfold bind at 1 in Hrep. unfold bind at 1.
      destruct (handleFailedLogin uid ip ua w) as [[a|e] w1]; [|discriminate].
      unfold bind at 1 in Hrep. unfold bind at 1.
      destruct (repeatM n (handleFailedLogin uid ip ua) w1) as [[l|e] w2] eqn:E;
        [|discriminate].
      unfold ret in Hrep. injection Hrep as <- <-.
      rewrite (IH w1 l E). reflexivity.
  - intros w' Hf' Hu' Hlt. rewrite Hrow in Hu'.
    destruct (checkAccountLockout_locked w' uid _ _ Hf' Hu' eq_refl Hlt)
      as (w'' & Hr & Hus' & Hf'' & _).
    exists w''. auto.
  - intros w' Hf' Hu' Hle. rewrite Hrow in Hu'.
    destruct (checkAccountLockout_expired w' uid _ _ Hf' Hu' eq_refl Hle)
      as (w'' & Hr & Hus' & _).
    exists w''. split; [exact Hr|]. rewrite Hus'. simpl. apply lookup_insert_eq.
Qed.

Lemma lockout_after_five_failures_witness :
  exists infos w5 t5,
    repeatM 5 (handleFailedLogin 1 "ip" "ua") demo_world = (Return infos, w5)
    /\ last infos = Some (mkFailedLoginInfo 5 true (Some (t5 + 30 * 60 * 1000)))
    /\ clock demo_world <= t5 <= clock w5
    /\ users w5 !! 1 =
         Some (mkUser (email demo_user) (name demo_user) 5 (Some (t5 + 30 * 60 * 1000))
                      (last_login demo_user))
    /\ (forall w', faults w' = [] -> users w' !! 1 = users w5 !! 1 ->
          clock w' < t5 + 30 * 60 * 1000 ->
          exists w'', checkAccountLockout 1 w' = (Return true, w'')
                      /\ users w'' = users w' /\ faults w'' = [])
    /\ (forall w', faults w' = [] -> users w' !! 1 = users w5 !! 1 ->
          t5 + 30 * 60 * 1000 <= clock w' ->
          exists w'', checkAccountLockout 1 w' = (Return false, w'')
                      /\ users w'' !! 1 =
                           Some (mkUser (email demo_user) (name demo_user) 0 None
                                        (last_login demo_user))).
Proof.
  apply (lockout_after_five_failures demo_world 1 demo_user "ip" "ua"); reflexivity.
Defined.

(** ** Rate limiting *)







Section RateLimitSteps.
Variables (ident ep ip : string) (R W : Z).
Hypothesis Hlimit : RATE_LIMITS ep = Some (mkLimit (Some R) (Some W)).

Ltac unfold_check :=
  unfold checkRateLimit; rewrite Hlimit;
  unfold try_catch, db_query, sql_select_rate_limit, sql_block, sql_increment,
    sql_reset_window, sql_insert_rate_limit, bind, NOW, new_Date, ret, throw.

(** The first request of a pair is let through, whether or not the store
    takes the row. *)
Lemma check_first w :
  faults w = [] -> pair_rows ident ep w = [] ->
  exists w', checkRateLimit ident ep ip w = (Return true, w').
Proof.
  intros Hf Hrows. unfold pair_rows in Hrows. unfold_check.
  simpl; rewrite ?Hf; simpl. rewrite Hrows; simpl. simpl; rewrite ?Hf; simpl.
  destruct (varchar 255 ident), (varchar 255 ep); simpl; eauto.
Qed.






End RateLimitSteps.

(** The clock never runs backwards during a check. *)
Lemma checkRateLimit_clock ident ep ip w :
  clock w <= clock (snd (checkRateLimit ident ep ip w)).
Proof.
  unfold checkRateLimit.
  destruct (RATE_LIMITS ep) as [limit|]; [|simpl; lia].
  unfold try_catch, db_query, sql_select_rate_limit, sql_block, sql_increment,
    sql_reset_window, sql_insert_rate_limit, bind, NOW, new_Date, ret, throw.
  pose proof (N2Z.is_nonneg (hd 0%N (ticks w))).
  pose proof (N2Z.is_nonneg (hd 0%N (tl (ticks w)))).
  repeat (simpl;
    match goal with
    | |- context [match faults ?x with _ => _ end] => destruct (faults x) as [|[] ?]
    | |- context [match ?l with [] => _ | _ :: _ => _ end] =>
        is_var l; match type of l with list bool => destruct l as [|[] ?] end
    | |- context [match latest ?l with _ => _ end] => destruct (latest l)
    | |- context [match varchar ?n ?s with _ => _ end] => destruct (varchar n s)
    | |- context [match blocked_until ?r with _ => _ end] => destruct (blocked_until r)
    | |- context [match js_add ?a ?b with _ => _ end] => destruct (js_add a b)
    | |- context [if ?c then _ else _] => destruct c
    | |- context [logSecurityEvent _ _ _ _ _ _ _] => step_log
    end); simpl in *; try lia.
Qed.




Section RateLimitRuns.
Variables (ident ep ip : string) (R W : Z).
Hypothesis Hlimit : RATE_LIMITS ep = Some (mkLimit (Some R) (Some W)).
Hypothesis Hlen : (String.length ident <= 255)%nat.

Local Abbreviation check := (checkRateLimit ident ep ip).




End RateLimitRuns.



(** ** Failing open *)

(** C7, as stated, fails: in [over_limit_world] the third query of the
    check (the audit insert) is rejected and the check answers [false]. *)
Lemma audit_fault_does_not_open :
  ~ (forall ident ep ip w,
       query_rejected (checkRateLimit ident ep ip) w ->
       fst (checkRateLimit ident ep ip w) = Return true).
Proof.
  intros H. specialize (H "1.2.3.4"%string "login"%string "1.2.3.4"%string over_limit_world).
  assert (Hrej : query_rejected (checkRateLimit "1.2.3.4" "login" "1.2.3.4") over_limit_world).
  { exists 2%nat. split; [vm_compute; lia|reflexivity]. }
  specialize (H Hrej). vm_compute in H. discriminate H.
Qed.

(** C7, amended. The check's own queries on [rate_limits] are the first two
    it issues (the SELECT, then one UPDATE or INSERT); when either of them
    is rejected the check answers [true]. *)
Theorem checkRateLimit_fails_open ident ep ip w :
  rejected_within 2 (checkRateLimit ident ep ip) w ->
  fst (checkRateLimit ident ep ip w) = Return true.
Proof.
  intros (n & Hn & Hcons & Hbit). unfold consumed in Hcons. revert Hcons.
  unfold checkRateLimit.
  destruct (RATE_LIMITS ep) as [limit|]; [|simpl; intros; lia].
  unfold try_catch, db_query, sql_select_rate_limit, sql_block, sql_increment,
    sql_reset_window, sql_insert_rate_limit, bind, NOW, new_Date, ret, throw.
  simpl.
  destruct (faults w) as [|b1 fs] eqn:Hf; [discriminate|].
  destruct b1; [reflexivity|].
  destruct n as [|[|n]]; [discriminate| |lia].
  destruct fs as [|b2 rest]; [discriminate|]. injection Hbit as ->.
  repeat (simpl;
    match goal with
    | |- context [match latest ?l with _ => _ end] => destruct (latest l)
    | |- context [match varchar ?n ?s with _ => _ end] => destruct (varchar n s)
    | |- context [match blocked_until ?r with _ => _ end] => destruct (blocked_until r)
    | |- context [if ?c then _ else _] => destruct c
    end); simpl; intros; try reflexivity; lia.
Qed.

Lemma checkRateLimit_fails_open_witness :
  rejected_within 2 (checkRateLimit "1.2.3.4" "login" "1.2.3.4")
                  (set_faults [false; true] over_limit_world)
  /\ fst (checkRateLimit "1.2.3.4" "login" "1.2.3.4"
            (set_faults [false; true] over_limit_world)) = Return true.
Proof.
  assert (H : rejected_within 2 (checkRateLimit "1.2.3.4" "login" "1.2.3.4")
                (set_faults [false; true] over_limit_world)).
  { exists 1%nat. split; [lia|]. split; [vm_compute; lia|reflexivity]. }
  split; [exact H|].
  exact (checkRateLimit_fails_open "1.2.3.4" "login" "1.2.3.4" _ H).
Defined.


(** ** Sessions *)

Ltac split_faults :=
  match goal with
  | |- context [match faults ?x with _ => _ end] => destruct (faults x) as [|[] ?]
  | |- context [match ?l with [] => _ | _ :: _ => _ end] =>
      is_var l; match type of l with list bool => destruct l as [|[] ?] end
  end.

Lemma Forall_map_keep (f : SessionRow -> SessionRow) l :
  (forall s, session_ok s -> session_ok (f s)) ->
  Forall session_ok l -> Forall session_ok (map f l).
Proof.
  intros Hf Hl. induction Hl; simpl; constructor; auto.
Qed.

Ltac keep_ok :=
  simpl; try assumption;
  try (apply Forall_map_keep; [|assumption];
       intros ? ?; unfold session_ok in *;
       repeat match goal with |- context [if ?c then _ else _] => destruct c end;
       simpl; assumption).

Lemma createSession_ok {P : PgTypes} u d i a w :
  Forall session_ok (user_sessions w) ->
  Forall session_ok (user_sessions (snd (createSession u d i a w))).
Proof.
  intros Hok.
  unfold createSession, try_catch, generateSecureToken, Date_now, db_query,
    sql_insert_session, bind, NOW, new_Date, ret, throw.
  pose proof (N2Z.is_nonneg (hd 0%N (ticks w))).
  repeat (simpl; first [split_faults
    | match goal with |- context [if ?c then _ else _] => destruct c end]);
    keep_ok.
  all: apply Forall_app; split; [assumption|]; constructor; [|constructor];
    unfold session_ok; simpl; lia.
Qed.

Lemma validateSession_ok t w :
  Forall session_ok (user_sessions w) ->
  Forall session_ok (user_sessions (snd (validateSession t w))).
Proof.
  intros Hok.
  unfold validateSession, try_catch, db_query, sql_select_session,
    sql_touch_session, bind, NOW, new_Date, ret, throw.
  repeat (simpl; first [split_faults
    | match goal with |- context [match omap ?f ?l with _ => _ end] => destruct (omap f l) end]);
    keep_ok.
Qed.

Lemma refreshSession_ok t w :
  Forall session_ok (user_sessions w) ->
  Forall session_ok (user_sessions (snd (refreshSession t w))).
Proof.
  intros Hok.
  unfold refreshSession, try_catch, generateSecureToken, Date_now, db_query,
    sql_select_refresh, sql_rotate_session, bind, NOW, new_Date, ret, throw.
  pose proof (N2Z.is_nonneg (hd 0%N (tl (ticks w)))).
  repeat (simpl; first [split_faults
    | match goal with
      | |- context [match omap ?f ?l with _ => _ end] => destruct (omap f l) as [|[[? ?] ?] ?]
      | |- context [if existsb ?f ?l || ?c then _ else _] => destruct (existsb f l || c)
      end]);
    simpl; try assumption.
  all: apply Forall_map_keep; [|assumption].
  all: intros x Hx; destruct (s_id x =? _); [|assumption].
  all: unfold session_ok; simpl; lia.
Qed.

Lemma revoke_ok cond w :
  Forall session_ok (user_sessions w) ->
  Forall session_ok
    (user_sessions (snd (try_catch (let* _ := db_query (sql_deactivate cond) in ret true)
                                   (fun _ => ret false) w))).
Proof.
  intros Hok. unfold try_catch, db_query, sql_deactivate, bind, ret.
  repeat (simpl; split_faults); keep_ok.
Qed.

Lemma run_call_ok {P : PgTypes} c w :
  Forall session_ok (user_sessions w) ->
  Forall session_ok (user_sessions (run_call c w)).
Proof.
  destruct c; simpl.
  - apply createSession_ok.
  - apply validateSession_ok.
  - apply refreshSession_ok.
  - apply revoke_ok.
  - apply revoke_ok.
Qed.

(** C9. [refresh_expires_at > expires_at] is an invariant of the session
    table: when it holds of every row (as in the empty table) it holds of
    every row after any sequence of calls of [createSession],
    [validateSession], [refreshSession], [revokeSession] and
    [revokeAllUserSessions], whatever the storage faults and the passing of
    time; so it holds of every record [createSession] inserts and after
    any number of refreshes. *)
Theorem refresh_outlives_access {P : PgTypes} calls w :
  Forall session_ok (user_sessions w) ->
  Forall session_ok (user_sessions (run_calls calls w)).
Proof.
  revert w. induction calls as [|c calls IH]; intros w Hok; simpl; [exact Hok|].
  apply IH, run_call_ok, Hok.
Qed.

Lemma refresh_outlives_access_witness :
  Forall session_ok
    (user_sessions (run_calls (P := demo_pg)
                              [CallCreate 1 "web" "10.0.0.1" "agent";
                               CallRefresh "Btok"; CallRefresh "Dtok"] demo_world))
  /\ length (user_sessions (run_calls (P := demo_pg)
                              [CallCreate 1 "web" "10.0.0.1" "agent";
                               CallRefresh "Btok"; CallRefresh "Dtok"] demo_world)) = 1%nat.
Proof.
  split; [|reflexivity].
  apply (refresh_outlives_access (P := demo_pg) _ demo_world). constructor.
Defined.

Lemma omap_none {A B} (f : A -> option B) (l : list A) :
  (forall x, x ∈ l -> f x = None) -> omap f l = [].
Proof.
  induction l as [|a l IH]; intros H; [reflexivity|].
  simpl. rewrite (H a) by constructor. apply IH. intros x Hx. apply H. by constructor.
Qed.

Lemma omap_map_ext {A B} (f : A -> option B) (g : A -> A) (l : list A) :
  (forall x, x ∈ l -> f (g x) = f x) -> omap f (map g l) = omap f l.
Proof.
  induction l as [|a l IH]; intros H; [reflexivity|].
  simpl. rewrite (H a) by constructor.
  change (list_omap A B f) with (omap (M:=list) f). rewrite IH; [reflexivity|].
  intros x Hx. apply H. by constructor.
Qed.

Lemma validateSession_fst stoken w :
  faults w = [] ->
  fst (validateSession stoken w)
  = Return (head (valid_rows stoken (clock w) (users w) (user_sessions w))).
Proof.
  intros Hf.
  unfold validateSession, try_catch, db_query, sql_select_session, sql_touch_session,
    bind, NOW, new_Date, ret. simpl. rewrite Hf. simpl.
  fold (valid_rows stoken (clock w) (users w) (user_sessions w)).
  destruct (valid_rows _ _ _ _) as [|row rows]; simpl; [reflexivity|].
  rewrite Hf. reflexivity.
Qed.

(** No active row carries the token: [validateSession] answers [null],
    whatever the faults. *)
Lemma validateSession_none stoken w :
  (forall s, s ∈ user_sessions w -> session_token s = stoken -> is_active s = false) ->
  fst (validateSession stoken w) = Return None.
Proof.
  intros Hall.
  assert (Hrows : forall now us, valid_rows stoken now us (user_sessions w) = []).
  { intros now us. apply omap_none. intros s Hs.
    destruct (String.eqb (session_token s) stoken) eqn:E; [|reflexivity].
    apply String.eqb_eq in E. rewrite (Hall s Hs E). reflexivity. }
  unfold validateSession, try_catch, db_query, sql_select_session, sql_touch_session,
    bind, NOW, new_Date, ret. simpl.
  destruct (faults w) as [|[] fs]; simpl; try reflexivity.
  - fold (valid_rows stoken (clock w) (users w) (user_sessions w)). rewrite Hrows. reflexivity.
  - fold (valid_rows stoken (clock w) (users w) (user_sessions w)). rewrite Hrows. reflexivity.
Qed.

Lemma revokeAllUserSessions_run uid w :
  faults w = [] ->
  revokeAllUserSessions uid w
  = (Return true,
     set_user_sessions (map (fun s => if user_id s =? uid then deactivate s else s)) w).
Proof.
  intros Hf. unfold revokeAllUserSessions, try_catch, db_query, sql_deactivate, bind, ret.
  rewrite Hf. reflexivity.
Qed.

(** C6. On a healthy store [revokeAllUserSessions uid] returns [true] and
    leaves a world [w'] in which (1) [validateSession] answers [null], now
    and as long as the session table stays as it is, for every token whose
    rows belong to [uid]; (2) the users and every row of another owner are
    unchanged, each at its place in the table; (3) for every token whose
    rows belong to other owners [validateSession] answers in [w'] exactly
    what it answers in [w], so a session that was valid still is. *)
Theorem revokeAll_only_owner uid w :
  faults w = [] ->
  exists w',
    revokeAllUserSessions uid w = (Return true, w')
    /\ (forall stoken w'',
          user_sessions w'' = user_sessions w' ->
          (forall s, s ∈ user_sessions w -> session_token s = stoken -> user_id s = uid) ->
          fst (validateSession stoken w'') = Return None)
    /\ users w' = users w
    /\ user_sessions w'
       = map (fun s => if user_id s =? uid then deactivate s else s) (user_sessions w)
    /\ filter (fun s => user_id s <> uid) (user_sessions w')
       = filter (fun s => user_id s <> uid) (user_sessions w)
    /\ (forall stoken,
          (forall s, s ∈ user_sessions w -> session_token s = stoken -> user_id s <> uid) ->
          fst (validateSession stoken w') = fst (validateSession stoken w)).
Proof.
  intros Hf. eexists. split; [apply revokeAllUserSessions_run, Hf|].
  simpl. split; [|split; [reflexivity|split; [reflexivity|split]]].
  - intros stoken w'' Hss Hown. apply validateSession_none.
    intros s Hs Htok. rewrite Hss in Hs.
    apply list_elem_of_In, in_map_iff in Hs as (s0 & Hs0 & Hin).
    apply list_elem_of_In in Hin.
    destruct (user_id s0 =? uid) eqn:E.
    + subst s. reflexivity.
    + subst s. specialize (Hown s0 Hin Htok). lia.
  - induction (user_sessions w) as [|s l IH]; [reflexivity|]. simpl.
    destruct (user_id s =? uid) eqn:E.
    + rewrite !filter_cons_False; [exact IH| |]; simpl; lia.
    + rewrite !filter_cons_True; [|lia|lia]. rewrite IH. reflexivity.
  - intros stoken Hown.
    rewrite !validateSession_fst by (simpl; exact Hf). simpl.
    f_equal. f_equal. unfold valid_rows. apply omap_map_ext.
    intros s Hs. destruct (user_id s =? uid) eqn:E; [|reflexivity].
    destruct (String.eqb (session_token s) stoken) eqn:Et; simpl; [|rewrite Et; reflexivity].
    apply String.eqb_eq in Et. specialize (Hown s Hs Et). lia.
Qed.

Lemma revokeAll_only_owner_witness :
  exists w',
    revokeAllUserSessions 1 two_owner_world = (Return true, w')
    /\ fst (validateSession "s1" w') = Return None
    /\ fst (validateSession "s2" w')
       = Return (Some (mkSessionContext 2 2 "d@e.f" (Some "Dee"%string) 86401000 604801000)).
Proof.
  destruct (revokeAll_only_owner 1 two_owner_world eq_refl)
    as (w' & Hrun & Hnone & _ & _ & _ & Hsame).
  exists w'. split; [exact Hrun|]. split.
  - apply Hnone; [reflexivity|]. intros s Hs Htok.
    apply list_elem_of_In in Hs. simpl in Hs.
    destruct Hs as [<-|[<-|[]]]; [reflexivity|discriminate Htok].
  - rewrite Hsame; [reflexivity|]. intros s Hs Htok.
    apply list_elem_of_In in Hs. simpl in Hs.
    destruct Hs as [<-|[<-|[]]]; [discriminate Htok|simpl; lia].
Defined.

Lemma NoDup_map_eq {A K} (key : A -> K) (l : list A) x y :
  NoDup (map key l) -> x ∈ l -> y ∈ l -> key x = key y -> x = y.
Proof.
  induction l as [|a l IH]; intros Hnd Hx Hy Hk; [by apply not_elem_of_nil in Hx|].
  simpl in Hnd. apply NoDup_cons in Hnd as [Hnotin Hnd].
  apply elem_of_cons in Hx as [->|Hx]; apply elem_of_cons in Hy as [->|Hy];
    auto.
  - exfalso. apply Hnotin. rewrite Hk. apply list_elem_of_In, in_map, list_elem_of_In, Hy.
  - exfalso. apply Hnotin. rewrite <- Hk. apply list_elem_of_In, in_map, list_elem_of_In, Hx.
Qed.

Lemma omap_unique {A B K} (key : A -> K) (f : A -> option B) (l : list A) s y :
  NoDup (map key l) -> s ∈ l -> f s = Some y ->
  (forall x, x ∈ l -> key x <> key s -> f x = None) ->
  omap f l = [y].
Proof.
  intros Hnd Hs Hfs Hother.
  assert (Hall : forall x, x ∈ l -> x <> s -> f x = None).
  { intros x Hx Hne. apply Hother; [exact Hx|]. intros Hk. apply Hne.
    exact (NoDup_map_eq key l x s Hnd Hx Hs Hk). }
  clear Hother. induction l as [|a l IH]; [by apply not_elem_of_nil in Hs|].
  simpl in Hnd. apply NoDup_cons in Hnd as [Hnotin Hnd].
  apply elem_of_cons in Hs as [<-|Hs].
  - simpl. rewrite Hfs. change (list_omap A B f) with (omap (M:=list) f).
    rewrite omap_none; [reflexivity|]. intros x Hx. apply Hall; [by constructor|].
    intros ->. apply Hnotin. apply list_elem_of_In, in_map, list_elem_of_In, Hx.
  - simpl. rewrite (Hall a); [|by constructor|].
    + change (list_omap A B f) with (omap (M:=list) f). apply IH; auto.
      intros x Hx. apply Hall. by constructor.
    + intros ->. apply Hnotin. apply list_elem_of_In, in_map, list_elem_of_In, Hs.
Qed.

Lemma existsb_other_false (sid : Z) (tok : SessionRow -> string) t (ss : list SessionRow) :
  (forall x, x ∈ ss -> tok x <> t) ->
  existsb (fun s => negb (s_id s =? sid) && String.eqb (tok s) t) ss = false.
Proof.
  intros H. apply not_true_is_false. intros Hex.
  apply existsb_exists in Hex as (x & Hin & Hx).
  apply andb_prop in Hx as [_ Hx]. apply String.eqb_eq in Hx.
  apply (H x); [apply list_elem_of_In, Hin|exact Hx].
Qed.

(** [refreshSession] answers [null] and leaves the sessions alone when
    every row that holds the refresh token is inactive or past its refresh
    expiry. *)
Lemma refreshSession_null rtoken w :
  (forall s, s ∈ user_sessions w -> refresh_token s = rtoken ->
             is_active s = false \/ refresh_expires_at s <= clock w) ->
  exists w', refreshSession rtoken w = (Return None, w')
             /\ user_sessions w' = user_sessions w.
Proof.
  intros Hall.
  assert (Hrows : omap (fun s =>
       if String.eqb (refresh_token s) rtoken && is_active s
          && (clock w <? refresh_expires_at s)
       then Some (s_id s, user_id s, refresh_expires_at s)
       else None) (user_sessions w) = []).
  { apply omap_none. intros s Hs.
    destruct (String.eqb (refresh_token s) rtoken) eqn:E; [|reflexivity].
    apply String.eqb_eq in E. destruct (Hall s Hs E) as [->|Hle]; [reflexivity|].
    destruct (clock w <? refresh_expires_at s) eqn:E2; [lia|].
    rewrite andb_false_r. reflexivity. }
  unfold refreshSession, try_catch, db_query, sql_select_refresh, bind, NOW, new_Date, ret.
  destruct (faults w) as [|[] fs]; simpl; try rewrite Hrows; eexists; split; reflexivity.
Qed.

Lemma refreshSession_rotates rtoken s w :
  faults w = [] -> sessions_wf (user_sessions w) ->
  s ∈ user_sessions w -> refresh_token s = rtoken -> is_active s = true ->
  clock w < refresh_expires_at s ->
  (forall x, x ∈ user_sessions w -> session_token x <> randomBytes w (draws w)) ->
  (forall x, x ∈ user_sessions w -> refresh_token x <> randomBytes w (S (draws w))) ->
  exists w' d1 d2 now,
    refreshSession rtoken w
    = (Return (Some (mkRefreshInfo (s_id s) (user_id s)
                       (randomBytes w (draws w)) (randomBytes w (S (draws w)))
                       (d1 + 24 * 60 * 60 * 1000) (d2 + 7 * 24 * 60 * 60 * 1000))), w')
    /\ clock w <= d1 /\ d1 <= d2 /\ d2 <= clock w'
    /\ user_sessions w'
       = map (fun x => if s_id x =? s_id s
                       then rotate (randomBytes w (draws w)) (randomBytes w (S (draws w)))
                                   (d1 + 24 * 60 * 60 * 1000)
                                   (d2 + 7 * 24 * 60 * 60 * 1000) now x
                       else x) (user_sessions w).
Proof.
  intros Hf (Hid & Hst & Hrt) Hs Htok Hact Hexp Hfresh1 Hfresh2.
  assert (Hrows : omap (fun x =>
       if String.eqb (refresh_token x) rtoken && is_active x
          && (clock w <? refresh_expires_at x)
       then Some (s_id x, user_id x, refresh_expires_at x)
       else None) (user_sessions w) = [(s_id s, user_id s, refresh_expires_at s)]).
  { apply (omap_unique refresh_token) with (s := s); auto.
    - rewrite Htok, String.eqb_refl, Hact. simpl.
      destruct (clock w <? refresh_expires_at s) eqn:E; [reflexivity|lia].
    - intros x Hx Hne. rewrite Htok in Hne.
      destruct (String.eqb (refresh_token x) rtoken) eqn:E; [|reflexivity].
      apply String.eqb_eq in E. contradiction. }
  unfold refreshSession, try_catch, db_query, sql_select_refresh, sql_rotate_session,
    generateSecureToken, Date_now, bind, NOW, new_Date, ret.
  simpl. rewrite Hf. simpl. rewrite Hrows. simpl. rewrite Hf. simpl.
  rewrite (existsb_other_false (s_id s) session_token _ _ Hfresh1).
  rewrite (existsb_other_false (s_id s) refresh_token _ _ Hfresh2). simpl.
  eexists _, _, _, _. split; [reflexivity|]. simpl.
  pose proof (N2Z.is_nonneg (hd 0%N (ticks w))).
  pose proof (N2Z.is_nonneg (hd 0%N (tl (ticks w)))).
  pose proof (N2Z.is_nonneg (hd 0%N (tl (tl (ticks w))))).
  pose proof (N2Z.is_nonneg (hd 0%N (tl (tl (tl (ticks w)))))).
  repeat split; lia.
Qed.

(** C4. [refreshSession] answers [null], leaving the session table as it
    is, when every row holding the refresh token is inactive or past its
    refresh expiry.  When an active row [s] holds it and its refresh expiry
    is still ahead (healthy store, table satisfying the schema's
    constraints, the two tokens drawn from the random generator not yet in
    the table), the call returns the two drawn tokens for the same row id;
    the table is the old one with only the row of that id changed, in
    place, to the new tokens and to expiries [d1 + 24h] and [d2 + 7d] for
    two clock readings [d1 <= d2] taken during the call; and
    [validateSession] of the old session token answers [null] from then on
    as long as the table stays as the refresh left it. *)
Theorem refresh_rotates_in_place rtoken w :
  (  (forall s, s ∈ user_sessions w -> refresh_token s = rtoken ->
                is_active s = false \/ refresh_expires_at s <= clock w) ->
     exists w', refreshSession rtoken w = (Return None, w')
                /\ user_sessions w' = user_sessions w)
  /\
  (forall s,
     faults w = [] -> sessions_wf (user_sessions w) ->
     s ∈ user_sessions w -> refresh_token s = rtoken -> is_active s = true ->
     clock w < refresh_expires_at s ->
     (forall x, x ∈ user_sessions w -> session_token x <> randomBytes w (draws w)) ->
     (forall x, x ∈ user_sessions w -> refresh_token x <> randomBytes w (S (draws w))) ->
     exists w' d1 d2 now,
       refreshSession rtoken w
       = (Return (Some (mkRefreshInfo (s_id s) (user_id s)
                          (randomBytes w (draws w)) (randomBytes w (S (draws w)))
                          (d1 + 24 * 60 * 60 * 1000) (d2 + 7 * 24 * 60 * 60 * 1000))), w')
       /\ clock w <= d1 /\ d1 <= d2 /\ d2 <= clock w'
       /\ user_sessions w'
          = map (fun x => if s_id x =? s_id s
                          then rotate (randomBytes w (draws w)) (randomBytes w (S (draws w)))
                                      (d1 + 24 * 60 * 60 * 1000)
                                      (d2 + 7 * 24 * 60 * 60 * 1000) now x
                          else x) (user_sessions w)
       /\ (forall w'', user_sessions w'' = user_sessions w' ->
             fst (validateSession (session_token s) w'') = Return None)).
Proof.
  split; [apply refreshSession_null|].
  intros s Hf Hwf Hs Htok Hact Hexp Hfresh1 Hfresh2.
  destruct (refreshSession_rotates rtoken s w Hf Hwf Hs Htok Hact Hexp Hfresh1 Hfresh2)
    as (w' & d1 & d2 & now & Hrun & H1 & H2 & H3 & Hss).
  exists w', d1, d2, now. repeat (split; [assumption|]).
  intros w'' Hss''. apply validateSession_none. intros x Hx Hxt. exfalso.
  rewrite Hss'', Hss in Hx.
  apply list_elem_of_In, in_map_iff in Hx as (x0 & Hx0 & Hin).
  apply list_elem_of_In in Hin.
  destruct (s_id x0 =? s_id s) eqn:E.
  - subst x. simpl in Hxt. apply (Hfresh1 s Hs). symmetry. exact Hxt.
  - subst x. destruct Hwf as (_ & Hst & _).
    pose proof (NoDup_map_eq session_token _ x0 s Hst Hin Hs Hxt). subst x0. lia.
Qed.

Lemma refresh_rotates_in_place_witness :
  exists w' d1 d2,
    refreshSession "r1" two_owner_world
    = (Return (Some (mkRefreshInfo 1 1 "Atok" "Btok" (d1 + 24 * 60 * 60 * 1000)
                                   (d2 + 7 * 24 * 60 * 60 * 1000))), w')
    /\ clock two_owner_world <= d1 /\ d1 <= d2 /\ d2 <= clock w'
    /\ fst (validateSession "s1" w') = Return None.
Proof.
  destruct (proj2 (refresh_rotates_in_place "r1" two_owner_world)
              (demo_session 1 1 "s1" "r1"))
    as (w' & d1 & d2 & now & Hrun & H1 & H2 & H3 & _ & Hnone).
  - reflexivity.
  - repeat split; apply (bool_decide_unpack _); vm_compute; exact I.
  - by constructor.
  - reflexivity.
  - reflexivity.
  - vm_compute. reflexivity.
  - intros x Hx Htok. apply list_elem_of_In in Hx. simpl in Hx.
    destruct Hx as [<-|[<-|[]]]; discriminate Htok.
  - intros x Hx Htok. apply list_elem_of_In in Hx. simpl in Hx.
    destruct Hx as [<-|[<-|[]]]; discriminate Htok.
  - exists w', d1, d2. repeat (split; [assumption|]). apply Hnone. reflexivity.
Defined.

(** ** Encryption *)

Lemma demo_crypto_laws : NodeCryptoLaws demo_crypto.
Proof.
  split.
  - intros alg password aad text. simpl. unfold demo_decipher, demo_cipher. simpl.
    rewrite String.eqb_refl. reflexivity.
  - intros b. simpl. apply String.list_byte_of_string_of_list_byte.
Qed.

Lemma substring_length n : forall s, (String.length (String.substring 0 n s) <= n)%nat.
Proof.
  induction n as [|n IH]; intros [|a s]; simpl; try lia.
  specialize (IH s). lia.
Qed.

Lemma in_all_ascii a : In a all_ascii.
Proof.
  unfold all_ascii. apply in_map_iff. exists (Ascii.nat_of_ascii a).
  split; [apply Ascii.ascii_nat_embedding|].
  apply in_seq. pose proof (Ascii.nat_ascii_bounded a). lia.
Qed.

Lemma in_words s : In s (words (String.length s)).
Proof.
  induction s as [|a s IH]; [left; reflexivity|].
  cbn [String.length words]. apply in_flat_map. exists a.
  split; [apply in_all_ascii|]. apply in_map. exact IH.
Qed.

Lemma in_words_upto n s : (String.length s <= n)%nat -> In s (words_upto n).
Proof.
  intros H. unfold words_upto. apply in_flat_map. exists (String.length s).
  split; [apply in_seq; lia|apply in_words].
Qed.

Lemma key_of_length_length n : String.length (key_of_length n) = n.
Proof. induction n as [|n IH]; simpl; [reflexivity|]. rewrite IH. reflexivity. Qed.

(** Pigeons: a function on a list without duplicates either keeps it
    without duplicates or sends two of its members to the same value. *)
Lemma map_collision {A} (f : A -> string) (l : list A) :
  List.NoDup l ->
  List.NoDup (map f l) \/ exists a b, In a l /\ In b l /\ a <> b /\ f a = f b.
Proof.
  induction 1 as [|a l Hnotin Hnd IH]; [left; constructor|].
  destruct IH as [IH|(x & y & Hx & Hy & Hne & Heq)].
  - destruct (in_dec String.string_dec (f a) (map f l)) as [Hin|Hnin].
    + right. apply in_map_iff in Hin as (b & Hb & Hbl). exists a, b.
      split; [left; reflexivity|]. split; [right; exact Hbl|].
      split; [intros ->; contradiction|symmetry; exact Hb].
    + left. simpl. constructor; assumption.
  - right. exists x, y. simpl. tauto.
Qed.

Section EncryptionProofs.
Context {C : NodeCrypto}.

(** C2. Under one master key, [encrypt] of a value that survives the JSON
    round trip returns a record, and [decrypt] of that record returns the
    value: the fingerprints agree, the key is derived again from the same
    master key and the stored salt, and the tag authenticates the stored
    ciphertext with the salt as associated data. *)
Theorem decrypt_encrypt (L : NodeCryptoLaws C) this salt_ iv_ (x : Value) :
  serializable x ->
  exists r, encrypt this salt_ iv_ x = Return r /\ decrypt this r = Return x.
Proof.
  intros (text & Hs & Hp). unfold encrypt. rewrite Hs.
  pose proof (decipher_cipher ENCRYPTION_ALGORITHM (deriveKey (masterKey this) salt_)
                salt_ text) as Hdec.
  destruct (cipher ENCRYPTION_ALGORITHM (deriveKey (masterKey this) salt_) salt_ text)
    as [enc tag]. simpl in Hdec.
  eexists. split; [reflexivity|].
  unfold decrypt. simpl. rewrite String.eqb_refl. simpl.
  rewrite !from_base64_to_base64, Hdec, Hp. reflexivity.
Qed.


(** With the same fingerprint the check of the key is passed, whatever
    the keys: what [decrypt] then does is up to the cipher. *)
Lemma same_fingerprint_passes this1 this2 salt_ iv_ (x : Value) r :
  fingerprint (masterKey this1) = fingerprint (masterKey this2) ->
  encrypt this1 salt_ iv_ x = Return r ->
  decrypt this2 r <> Throw (Err "Encryption key mismatch").
Proof.
  intros Hfp Henc. unfold encrypt in Henc. destruct (JSON_stringify x); [|discriminate].
  destruct (cipher _ _ _ _) as [enc tag]. injection Henc as <-.
  unfold decrypt. simpl. rewrite Hfp, String.eqb_refl. simpl.
  destruct (decipher _ _ _ _ _) as [text|]; [|discriminate].
  destruct (JSON_parse text); discriminate.
Qed.

(** Whatever the hash function, two different master keys have the same
    fingerprint: there are more keys than strings of at most 16
    characters. *)
Lemma fingerprints_collide :
  exists K1 K2, K1 <> K2 /\ fingerprint K1 = fingerprint K2.
Proof.
  remember (length (words_upto 16)) as M eqn:HM.
  assert (Hkeys : List.NoDup (map key_of_length (seq 0 (S M)))).
  { apply NoDup_map_NoDup_ForallPairs; [|apply List.seq_NoDup].
    intros a b _ _ Hab. apply (f_equal String.length) in Hab.
    rewrite !key_of_length_length in Hab. exact Hab. }
  destruct (map_collision fingerprint _ Hkeys) as [Hnd|(K1 & K2 & _ & _ & Hne & Heq)];
    [|exists K1, K2; auto].
  exfalso.
  apply (NoDup_incl_length (l' := words_upto 16)) in Hnd.
  - rewrite !List.length_map, List.length_seq, <- HM in Hnd. lia.
  - intros s Hs. apply in_map_iff in Hs as (K & <- & _).
    apply in_words_upto. unfold fingerprint. apply substring_length.
Qed.

(** C10. [decrypt] does not look at the [iv] field: two records that
    differ only there decrypt alike.  Nor does the random [iv] enter
    [encrypt]'s cipher: two runs that differ only in the [iv] drawn give
    records that differ only in the [iv] field (or fail alike). *)
Theorem iv_is_ignored this :
  (forall r v1 v2, decrypt this (with_iv v1 r) = decrypt this (with_iv v2 r)) /\
  (forall salt_ iv1 iv2 (x : Value),
     match encrypt this salt_ iv1 x, encrypt this salt_ iv2 x with
     | Return r1, Return r2 =>
         r2 = with_iv (toString_base64 iv2) r1 /\ iv r1 = toString_base64 iv1
         /\ decrypt this r1 = decrypt this r2
     | Throw e1, Throw e2 => e1 = e2
     | _, _ => False
     end).
Proof.
  split; [reflexivity|].
  intros salt_ iv1 iv2 x. unfold encrypt.
  destruct (JSON_stringify x); [|reflexivity].
  destruct (cipher _ _ _ _) as [enc tag]. repeat split.
Qed.

End EncryptionProofs.

Lemma decrypt_encrypt_witness :
  exists r,
    @encrypt demo_crypto (mkEncryptionManager "key-one") [x01; x02] [x03] "secret"%string
      = Return r
    /\ @decrypt demo_crypto (mkEncryptionManager "key-one") r = Return "secret"%string.
Proof.
  apply (@decrypt_encrypt demo_crypto demo_crypto_laws).
  exists "secret"%string. split; reflexivity.
Defined.



(** * The rest of the module and its callers: proofs *)

(** ** Patterns *)

Example emails :
  validateEmail "a@b.c" = true /\ validateEmail "a@b..c" = true
  /\ validateEmail "ab.c" = false /\ validateEmail "a@b" = false
  /\ validateEmail "a@@b.c" = false /\ validateEmail "a @b.c" = false
  /\ validateEmail "a@b.c." = true /\ validateEmail "a@b." = false
  /\ validateEmail "a@.b" = false.
Proof. repeat split; reflexivity. Qed.

Example passwords :
  validatePassword "Abcdef1!" = true /\ validatePassword "Abcde1!" = false
  /\ validatePassword "abcdefg1!" = false /\ validatePassword "Abcdefg1#" = false
  /\ validatePassword "Abcdefgh!" = false /\ validatePassword "ABCDEFG1!" = false.
Proof. repeat split; reflexivity. Qed.

Lemma nullable_lang r : nullable r = true <-> lang r [].
Proof.
  induction r; simpl.
  - split; [discriminate|tauto].
  - tauto.
  - split; [discriminate|]. intros (a & H & _). discriminate H.
  - rewrite andb_true_iff, IHr1, IHr2. split.
    + intros [H1 H2]. exists [], []. auto.
    + intros (s1 & s2 & Hs & H1 & H2). symmetry in Hs.
      apply app_eq_nil in Hs as [-> ->]. auto.
  - rewrite orb_true_iff, IHr1, IHr2. tauto.
  - rewrite andb_true_iff, IHr1, IHr2. tauto.
  - split; [intros _; constructor|reflexivity].
Qed.

Lemma star_cons_inv (L : list Ascii.ascii -> Prop) a s :
  star L (a :: s) ->
  exists s1 s2, s = s1 ++ s2 /\ L (a :: s1) /\ star L s2.
Proof.
  intros H. remember (a :: s) as t eqn:Ht. revert a s Ht.
  induction H as [|s1 s2 H1 H2 IH]; intros a s Ht; [discriminate|].
  destruct s1 as [|b s1]; simpl in Ht.
  - apply IH. exact Ht.
  - injection Ht as -> <-. exists s1, s2. auto.
Qed.

Lemma deriv_lang a r : forall s, lang (deriv a r) s <-> lang r (a :: s).
Proof.
  induction r; intros s; simpl.
  - tauto.
  - split; [tauto|discriminate].
  - destruct (p a) eqn:E; simpl.
    + split; [intros ->; eauto|]. intros (b & H & _). injection H as _ ->. reflexivity.
    + split; [tauto|]. intros (b & H & Hb). injection H as -> _. congruence.
  - destruct (nullable r1) eqn:E; simpl.
    + split.
      * intros [(s1 & s2 & -> & H1 & H2)|H].
        -- exists (a :: s1), s2. rewrite <- IHr1. auto.
        -- exists [], (a :: s). rewrite <- IHr2. split; [reflexivity|].
           split; [apply nullable_lang, E|exact H].
      * intros (s1 & s2 & Hs & H1 & H2). destruct s1 as [|b s1]; simpl in Hs.
        -- right. subst s2. apply IHr2, H2.
        -- injection Hs as <- ->. left. exists s1, s2. rewrite IHr1. auto.
    + split.
      * intros (s1 & s2 & -> & H1 & H2). exists (a :: s1), s2. rewrite <- IHr1. auto.
      * intros (s1 & s2 & Hs & H1 & H2). destruct s1 as [|b s1]; simpl in Hs.
        -- apply nullable_lang in H1. congruence.
        -- injection Hs as <- ->. exists s1, s2. rewrite IHr1. auto.
  - rewrite IHr1, IHr2. tauto.
  - rewrite IHr1, IHr2. tauto.
  - split.
    + intros (s1 & s2 & -> & H1 & H2). apply IHr in H1.
      exact (star_app _ (a :: s1) s2 H1 H2).
    + intros H. apply star_cons_inv in H as (s1 & s2 & -> & H1 & H2).
      exists s1, s2. rewrite IHr. auto.
Qed.

(** The matcher decides the language. *)
Lemma matches_lang s : forall r, matches r s = true <-> lang r s.
Proof.
  induction s as [|a s IH]; intros r; simpl.
  - apply nullable_lang.
  - rewrite IH. apply deriv_lang.
Qed.

Lemma star_cls p l : lang (Star (Cls p)) l <-> forallb p l = true.
Proof.
  simpl. split.
  - intros H. induction H as [|s1 s2 (a & -> & Ha) _ IH]; [reflexivity|].
    simpl. rewrite Ha. exact IH.
  - induction l as [|a l IH]; simpl; intros H; [constructor|].
    apply andb_true_iff in H as [Ha Hl].
    apply (star_app _ [a] l); [exists a; auto|auto].
Qed.

Lemma lang_anything l : lang anything l.
Proof. apply star_cls. induction l; simpl; auto. Qed.

Lemma plus_cls p l : lang (Plus (Cls p)) l <-> l <> [] /\ forallb p l = true.
Proof.
  unfold Plus. split.
  - intros (s1 & s2 & -> & (a & -> & Ha) & H2). apply star_cls in H2.
    split; [discriminate|]. simpl. rewrite Ha. exact H2.
  - intros [Hne H]. destruct l as [|a l]; [contradiction|]. simpl in H.
    apply andb_true_iff in H as [Ha Hl].
    exists [a], l. split; [reflexivity|]. split; [exists a; auto|apply star_cls, Hl].
Qed.

Lemma at_least_cls p n : forall l,
  lang (AtLeast n (Cls p)) l <-> (n <= length l)%nat /\ forallb p l = true.
Proof.
  induction n as [|n IH]; intros l.
  - simpl AtLeast. rewrite star_cls. split; [intros H; split; [lia|exact H]|tauto].
  - split.
    + intros (s1 & s2 & -> & (a & -> & Ha) & H2). apply IH in H2 as [Hn Hl].
      simpl. rewrite Ha. split; [lia|exact Hl].
    + intros [Hn H]. destruct l as [|a l]; simpl in Hn; [lia|]. simpl in H.
      apply andb_true_iff in H as [Ha Hl].
      exists [a], l. split; [reflexivity|]. split; [exists a; auto|].
      apply IH. split; [lia|exact Hl].
Qed.

(** A lookahead [(?=.*c)] finds a code unit of class [c]. *)
Lemma lookahead_has_some c l : lang (lookahead_has c) l -> existsb c l = true.
Proof.
  intros (s1 & s2 & -> & _ & (t1 & t2 & -> & (a & -> & Ha) & _)).
  rewrite existsb_app. simpl. rewrite Ha. rewrite orb_true_r. reflexivity.
Qed.

(** It finds every such code unit that no line terminator precedes. *)
Lemma lookahead_has_intro c l :
  forallb (fun a => negb (is_line_terminator a)) l = true ->
  existsb c l = true -> lang (lookahead_has c) l.
Proof.
  intros Hdot Hex. apply existsb_exists in Hex as (a & Hin & Ha).
  apply in_split in Hin as (l1 & l2 & ->).
  rewrite forallb_app in Hdot. apply andb_true_iff in Hdot as [Hd1 _].
  exists l1, (a :: l2). split; [reflexivity|]. split; [apply star_cls, Hd1|].
  exists [a], l2. split; [reflexivity|]. split; [exists a; auto|apply lang_anything].
Qed.

Lemma lang_and r1 r2 l : lang (And r1 r2) l <-> lang r1 l /\ lang r2 l.
Proof. reflexivity. Qed.

Lemma password_char_not_terminator a :
  is_password_char a = true -> is_line_terminator a = false.
Proof.
  destruct a as [[] [] [] [] [] [] [] []]; intros H;
    first [reflexivity | discriminate H].
Qed.

(** X1. [validatePassword] accepts exactly the strings of at least eight
    code units, all of them ASCII letters, digits or one of [@$!%*?&], that
    hold a lower-case letter, an upper-case letter, a digit and one of the
    specials: the four lookaheads and the anchored class of the pattern
    amount to this rule. *)
Theorem validatePassword_rule password :
  validatePassword password = password_rule password.
Proof.
  unfold validatePassword, test, password_rule.
  set (l := String.list_ascii_of_string password).
  apply eq_true_iff_eq. rewrite matches_lang. unfold passwordRegex.
  rewrite !andb_true_iff, !lang_and, at_least_cls, Nat.leb_le. split.
  - intros (H1 & H2 & H3 & H4 & Hn & Hall).
    repeat split; auto using lookahead_has_some.
  - intros (((((Hn & Hall) & H1) & H2) & H3) & H4).
    assert (Hdot : forallb (fun a => negb (is_line_terminator a)) l = true).
    { apply forallb_forall. intros a Ha.
      rewrite (password_char_not_terminator a); [reflexivity|].
      eapply forallb_forall in Hall; eauto. }
    repeat split; auto using lookahead_has_intro.
Qed.

Lemma is_char_eq c a : is_char (String c EmptyString) a = true <-> a = c.
Proof. simpl. apply Ascii.eqb_eq. Qed.

Lemma lang_email l :
  lang emailRegex l <->
  exists l1 d1 d2,
    l = l1 ++ chr "@" :: d1 ++ chr "." :: d2
    /\ l1 <> [] /\ d1 <> [] /\ d2 <> []
    /\ forallb not_space_at l1 = true /\ forallb not_space_at d1 = true
    /\ forallb not_space_at d2 = true.
Proof.
  unfold emailRegex. split.
  - intros (l1 & r1 & -> & H1 & (a & r2 & -> & (b & -> & Hb) & (d1 & r3 & -> & Hd1
             & (c & d2 & -> & (e & -> & He) & Hd2)))).
    apply plus_cls in H1 as [? ?], Hd1 as [? ?], Hd2 as [? ?].
    apply is_char_eq in Hb, He. subst b e.
    exists l1, d1, d2. simpl. repeat split; auto.
  - intros (l1 & d1 & d2 & -> & N1 & N2 & N3 & F1 & F2 & F3).
    exists l1, (chr "@" :: d1 ++ chr "." :: d2). split; [reflexivity|].
    split; [apply plus_cls; auto|].
    exists [chr "@"], (d1 ++ chr "." :: d2). split; [reflexivity|].
    split; [exists (chr "@"); auto|].
    exists d1, (chr "." :: d2). split; [reflexivity|].
    split; [apply plus_cls; auto|].
    exists [chr "."], d2. split; [reflexivity|].
    split; [exists (chr "."); auto|apply plus_cls; auto].
Qed.

Lemma split_at_sign_app l1 d :
  forallb not_space_at l1 = true -> split_at_sign (l1 ++ chr "@" :: d) = Some (l1, d).
Proof.
  induction l1 as [|a l1 IH]; simpl in *; intros H; [reflexivity|].
  apply andb_true_iff in H as [Ha Hl]. unfold not_space_at in Ha.
  apply negb_true_iff, orb_false_iff in Ha as [_ Ha]. simpl in Ha. rewrite Ha.
  rewrite IH by exact Hl. reflexivity.
Qed.

Lemma split_at_sign_inv l : forall local domain,
  split_at_sign l = Some (local, domain) -> l = local ++ chr "@" :: domain.
Proof.
  induction l as [|a l IH]; simpl in *; intros local domain H; [discriminate|].
  destruct (Ascii.eqb a _) eqn:E.
  - injection H as <- <-. apply Ascii.eqb_eq in E. subst a. reflexivity.
  - destruct (split_at_sign l) as [[x y]|]; [|discriminate].
    injection H as <- <-. simpl. f_equal. apply IH. reflexivity.
Qed.

Lemma inner_dot domain :
  existsb (is_char ".") (removelast (tl domain)) = true <->
  exists d1 d2, domain = d1 ++ chr "." :: d2 /\ d1 <> [] /\ d2 <> [].
Proof.
  split.
  - intros H. destruct domain as [|x t]; [discriminate|]. simpl tl in H.
    destruct t as [|y t'] using rev_ind; [discriminate|].
    rewrite removelast_last in H.
    apply existsb_exists in H as (a & Hin & Ha). apply is_char_eq in Ha. subst a.
    apply in_split in Hin as (m1 & m2 & ->).
    exists (x :: m1), (m2 ++ [y]). split; [|split].
    + simpl. rewrite <- app_assoc. reflexivity.
    + discriminate.
    + intros E. apply app_eq_nil in E as [_ E]. discriminate E.
  - intros (d1 & d2 & -> & N1 & N2).
    destruct d1 as [|x m1]; [contradiction|].
    destruct (exists_last N2) as (m2 & y & ->).
    change (tl ((x :: m1) ++ chr "." :: m2 ++ [y]))
      with (m1 ++ (chr "." :: m2) ++ [y]).
    rewrite app_assoc, removelast_last, existsb_app. simpl. apply orb_true_r.
Qed.

(** X2. [validateEmail] accepts exactly the strings that hold an [@]
    preceded by a non-empty part, with no white space and no second [@]
    anywhere, and with a dot after the [@] that is neither the first nor the
    last code unit of that part.  (So "a@b..c" and "a@b.c." pass.) *)
Theorem validateEmail_rule email_ :
  validateEmail email_ = email_rule email_.
Proof.
  unfold validateEmail, test, email_rule.
  set (l := String.list_ascii_of_string email_).
  apply eq_true_iff_eq. rewrite matches_lang, lang_email. split.
  - intros (l1 & d1 & d2 & -> & N1 & N2 & N3 & F1 & F2 & F3).
    rewrite split_at_sign_app by exact F1.
    rewrite !andb_true_iff. repeat split.
    + destruct l1; [contradiction|reflexivity].
    + exact F1.
    + rewrite forallb_app. simpl. rewrite F2, F3. reflexivity.
    + apply inner_dot. exists d1, d2. auto.
  - destruct (split_at_sign l) as [[local domain]|] eqn:E; [|discriminate].
    apply split_at_sign_inv in E. rewrite !andb_true_iff.
    intros (((N & F1) & F2) & Hdot).
    apply inner_dot in Hdot as (d1 & d2 & -> & N1 & N2).
    rewrite forallb_app in F2. simpl in F2.
    apply andb_true_iff in F2 as [F2 F3].
    exists local, d1, d2. repeat split; auto.
    intros ->. discriminate N.
Qed.

(** ** Client information *)

Lemma js_or_nonempty a b s :
  js_or a b = Some s -> (forall t, b = Some t -> t <> EmptyString) -> s <> EmptyString.
Proof.
  unfold js_or. destruct a as [x|]; [destruct (String.eqb x EmptyString) eqn:E|];
    intros H Hb; try (apply Hb; exact H).
  injection H as <-. intros ->. discriminate E.
Qed.

(** X3. [getClientInfo] never gives an empty address or an empty user
    agent, whatever the event; and a non-empty [x-forwarded-for] header is
    the address as it stands, before every other source. *)
Theorem getClientInfo_never_empty event :
  fst (getClientInfo event) <> EmptyString
  /\ snd (getClientInfo event) <> EmptyString
  /\ (forall hs v, headers event = Some hs -> hs !! "x-forwarded-for"%string = Some v ->
        v <> EmptyString -> fst (getClientInfo event) = v).
Proof.
  unfold getClientInfo. simpl. split; [|split].
  - destruct (js_or _ _) as [s|] eqn:E; [|discriminate].
    eapply js_or_nonempty; [exact E|]. intros t Ht.
    eapply js_or_nonempty; [exact Ht|]. intros t' Ht'.
    eapply js_or_nonempty; [exact Ht'|]. intros t'' Ht''. injection Ht'' as <-. discriminate.
  - destruct (js_or _ _) as [s|] eqn:E; [|discriminate].
    eapply js_or_nonempty; [exact E|]. intros t Ht. injection Ht as <-. discriminate.
  - intros hs v -> Hv Hne. rewrite Hv. simpl.
    destruct (String.eqb v EmptyString) eqn:E; [|reflexivity].
    apply String.eqb_eq in E. contradiction.
Qed.

(** ** Containment of failures *)

Lemma try_catch_default {A} (body_ : M A) (d : A) w :
  exists r w', try_catch body_ (fun _ => ret d) w = (Return r, w').
Proof.
  unfold try_catch, ret. destruct (body_ w) as [[a|e] w']; eauto.
Qed.

(** X4. Eight functions of the module never reject their promise, whatever
    the arguments, the tables and the faults of the store: a failure
    inside is answered with the default of their [catch] ([true] for the
    rate limit, [false] for the lockout, [null] for the sessions...).
    [createSession] is the exception, and what it throws is always the
    error "Failed to create session". *)
Theorem failures_are_contained {P : PgTypes} :
  (forall ident ep ip w, exists r w', checkRateLimit ident ep ip w = (Return r, w'))
  /\ (forall uid w, exists r w', checkAccountLockout uid w = (Return r, w'))
  /\ (forall uid ip ua w, exists r w', handleFailedLogin uid ip ua w = (Return r, w'))
  /\ (forall uid ip ua w, exists r w', handleSuccessfulLogin uid ip ua w = (Return r, w'))
  /\ (forall t w, exists r w', validateSession t w = (Return r, w'))
  /\ (forall t w, exists r w', refreshSession t w = (Return r, w'))
  /\ (forall t w, exists r w', revokeSession t w = (Return r, w'))
  /\ (forall uid w, exists r w', revokeAllUserSessions uid w = (Return r, w'))
  /\ (forall uid d ip ua w e w',
        createSession uid d ip ua w = (Throw e, w') -> e = Err "Failed to create session").
Proof.
  repeat split; intros; try apply try_catch_default.
  - unfold checkRateLimit. destruct (RATE_LIMITS ep); [|unfold ret; eauto].
    unfold bind, new_Date. apply try_catch_default.
  - unfold createSession, try_catch, throw in H.
    match type of H with context [match ?c with _ => _ end] =>
      destruct c as [[a|e0] w0] end; [discriminate|].
    injection H as <- _. reflexivity.
Qed.

(** ** The dispatcher *)

Lemma prefix_trans a : forall b c,
  String.prefix a b = true -> String.prefix b c = true -> String.prefix a c = true.
Proof.
  induction a as [|x a IH]; intros b c Hab Hbc; [destruct c; reflexivity|].
  destruct b as [|y b]; [discriminate|]. destruct c as [|z c]; [discriminate|].
  simpl in *.
  destruct (Ascii.ascii_dec x y) as [->|]; [|discriminate].
  destruct (Ascii.ascii_dec y z) as [->|]; [|discriminate].
  eapply IH; eauto.
Qed.

Lemma includes_cons n x s :
  includes n (String x s) = String.prefix n (String x s) || includes n s.
Proof. reflexivity. Qed.

(** A string that includes a needle includes the needle's prefixes. *)
Lemma includes_prefix n1 n2 s :
  String.prefix n1 n2 = true -> includes n2 s = true -> includes n1 s = true.
Proof.
  intros Hp. induction s as [|x s IH]; intros H.
  - unfold includes in *. rewrite orb_false_r in *. eapply prefix_trans; eauto.
  - rewrite includes_cons in *. apply orb_true_iff in H as [H|H].
    + rewrite (prefix_trans _ _ _ Hp H). reflexivity.
    + rewrite (IH H). apply orb_true_r.
Qed.

Section Dispatcher.
Context {P : PgTypes}.
Variable error_message : Error -> string.
Variable toLowerCase : string -> string.
Variable bcrypt_compare : JsVal -> option string -> Outcome bool.
Variable password_hash : Z -> option string.
Variable stringify_device : string -> string.
Variable prepareValue : JsVal -> string.
Variables handleRegister handleForgotPassword handleResetPassword
          handleChangePassword handleDemo handleLinkedInAuth handleGetProfile : Handler.

Local Abbreviation dispatch :=
  (main_with error_message toLowerCase bcrypt_compare password_hash stringify_device
             prepareValue handleRegister handleForgotPassword handleResetPassword
             handleChangePassword handleDemo handleLinkedInAuth handleGetProfile).

(** X5. The handler for [/logout-all] is never called: a POST whose path
    includes "/logout-all" includes "/logout" and is taken by the branch
    for logout (or an earlier one), so the dispatcher behaves the same
    with any two handlers in that place. *)
Theorem logout_all_is_shadowed (h1 h2 : Handler) event :
  dispatch h1 event = dispatch h2 event.
Proof.
  unfold main_with. destruct (getClientInfo event) as [ip ua].
  f_equal.
  destruct (String.eqb (httpMethod event) "OPTIONS"); [reflexivity|].
  destruct (String.eqb (httpMethod event) "POST"); simpl; [|reflexivity].
  destruct (includes "/register" (path event)); [reflexivity|].
  destruct (includes "/login" (path event)); [reflexivity|].
  destruct (includes "/refresh" (path event)); [reflexivity|].
  destruct (includes "/logout" (path event)) eqn:E1; [reflexivity|].
  destruct (includes "/logout-all" (path event)) eqn:E2; [|reflexivity].
  rewrite (includes_prefix "/logout" "/logout-all" _ eq_refl E2) in E1. discriminate E1.
Qed.

(** X6. The dispatcher always answers: whatever the handlers do and
    whatever the store does, [main] returns a response; an exception of a
    handler becomes the 500 "Authentication failed" answer. *)
Theorem main_always_answers (h : Handler) event w :
  exists response w', dispatch h event w = (Return response, w').
Proof.
  unfold main_with. destruct (getClientInfo event) as [ip ua].
  unfold try_catch.
  match goal with |- context [match ?c w with _ => _ end] =>
    destruct (c w) as [[r|e] w1] end.
  - eauto.
  - unfold bind. step_log. eauto.
Qed.

End Dispatcher.

(** ** Logout *)

Lemma validateSession_run stoken w :
  faults w = [] ->
  exists w1,
    validateSession stoken w
    = (Return (head (valid_rows stoken (clock w) (users w) (user_sessions w))), w1)
    /\ faults w1 = [] /\ users w1 = users w /\ rate_limits w1 = rate_limits w
    /\ clock w <= clock w1
    /\ user_sessions w1
       = match head (valid_rows stoken (clock w) (users w) (user_sessions w)) with
         | Some row => map (touch (ctx_sessionId row) (clock (tick w))) (user_sessions w)
         | None => user_sessions w
         end.
Proof.
  intros Hf.
  unfold validateSession, try_catch, db_query, sql_select_session, sql_touch_session,
    bind, NOW, new_Date, ret. simpl. rewrite Hf. simpl.
  fold (valid_rows stoken (clock w) (users w) (user_sessions w)).
  pose proof (N2Z.is_nonneg (hd 0%N (ticks w))).
  pose proof (N2Z.is_nonneg (hd 0%N (tl (ticks w)))).
  destruct (valid_rows _ _ _ _) as [|row rows]; simpl.
  - eexists. split; [reflexivity|]. simpl. repeat split; auto; lia.
  - rewrite Hf. eexists. split; [reflexivity|]. simpl. repeat split; auto; lia.
Qed.

(** Whatever happens, [validateSession] changes no token, owner or
    [is_active] flag. *)
Lemma validateSession_keeps stoken w :
  exists f, user_sessions (snd (validateSession stoken w)) = map f (user_sessions w)
    /\ forall s, session_token (f s) = session_token s /\ is_active (f s) = is_active s
                 /\ user_id (f s) = user_id s.
Proof.
  unfold validateSession, try_catch, db_query, sql_select_session, sql_touch_session,
    bind, NOW, new_Date, ret.
  assert (Hid : exists f : SessionRow -> SessionRow,
            user_sessions w = map f (user_sessions w)
            /\ forall s, session_token (f s) = session_token s
                         /\ is_active (f s) = is_active s /\ user_id (f s) = user_id s).
  { exists (fun s => s). split; [symmetry; apply map_id|auto]. }
  assert (Htouch : forall sid now, exists f : SessionRow -> SessionRow,
            map (touch sid now) (user_sessions w) = map f (user_sessions w)
            /\ forall s, session_token (f s) = session_token s
                         /\ is_active (f s) = is_active s /\ user_id (f s) = user_id s).
  { intros sid now. exists (touch sid now). split; [reflexivity|].
    intros s. unfold touch. destruct (s_id s =? sid); auto. }
  repeat (simpl; first [split_faults
    | match goal with |- context [match omap ?f ?l with _ => _ end] => destruct (omap f l) end]);
    simpl; try exact Hid; apply Htouch.
Qed.

Section LogoutProofs.
Variable error_message : Error -> string.

(** X7. A logout request with a well-formed bearer header is always
    answered 200 "Logged out successfully", whatever the token and
    whatever the store does: the result of [revokeSession] is not looked
    at. *)
Theorem handleLogout_always_200 event ip ua hdrs token w :
  bearer_token event = Some token ->
  exists w', handleLogout error_message event ip ua hdrs w
             = (Return (mkResponse 200 hdrs (MessageBody "Logged out successfully")), w').
Proof.
  intros Hb. unfold handleLogout. rewrite Hb. unfold try_catch at 1, bind.
  destruct (try_catch_default
              (let* rows := db_query (sql_select_session token) in
               match rows with
               | [] => ret None
               | row :: _ =>
                   let* _ := db_query (sql_touch_session (ctx_sessionId row)) in
                   ret (Some row)
               end) None w) as (r & w1 & E1).
  fold (validateSession token) in E1. rewrite E1.
  destruct (try_catch_default
              (let* _ := db_query (sql_deactivate
                                     (fun s => String.eqb (session_token s) token)) in
               ret true) false w1) as (r2 & w2 & E2).
  fold (revokeSession token) in E2. rewrite E2.
  destruct r as [s|]; [step_log|]; unfold ret; eauto.
Qed.

(** X8. On a healthy store a logout kills the token: from then on, as long
    as the session table stays as the logout left it, [validateSession] of
    the token answers [null]. *)
Theorem handleLogout_kills_token event ip ua hdrs token w :
  faults w = [] -> bearer_token event = Some token ->
  forall w'', user_sessions w'' = user_sessions (snd (handleLogout error_message event ip ua hdrs w)) ->
    fst (validateSession token w'') = Return None.
Proof.
  intros Hf Hb w'' Hss. apply validateSession_none. intros s Hs Htok.
  rewrite Hss in Hs. clear Hss. revert Hs.
  unfold handleLogout. rewrite Hb. unfold try_catch at 1, bind.
  destruct (validateSession_run token w Hf) as (w1 & E1 & Hf1 & _ & _ & _ & Hss1).
  rewrite E1.
  unfold revokeSession, try_catch, db_query, sql_deactivate, bind, ret.
  rewrite Hf1. simpl.
  assert (Hdead : forall l, s ∈ map (fun s0 =>
             if String.eqb (session_token s0) token then deactivate s0 else s0) l ->
             is_active s = false).
  { intros l Hin. apply list_elem_of_In, in_map_iff in Hin as (s0 & <- & _).
    destruct (String.eqb (session_token s0) token) eqn:E; [reflexivity|].
    apply String.eqb_neq in E. contradiction. }
  destruct (head _) as [row|]; [step_log|simpl]; intros Hs.
  - match goal with H : user_sessions _ = _ |- _ => rewrite H in Hs end.
    eapply Hdead. exact Hs.
  - eapply Hdead. exact Hs.
Qed.

Lemma touch_keeps sid now l :
  map is_active (map (touch sid now) l) = map is_active l
  /\ map session_token (map (touch sid now) l) = map session_token l.
Proof.
  rewrite !map_map. split; apply map_ext; intros s; unfold touch;
    destruct (s_id s =? sid); reflexivity.
Qed.

(** X9. The answer says nothing about the revocation: when the token is
    that of a valid session and the store rejects the UPDATE of
    [revokeSession] (the third query of the request), the answer is still
    200 "Logged out successfully" and every session keeps its token and
    its [is_active] flag. *)
Theorem handleLogout_revocation_can_fail event ip ua hdrs token w row rest more :
  bearer_token event = Some token ->
  valid_rows token (clock w) (users w) (user_sessions w) = row :: rest ->
  faults w = false :: false :: true :: more ->
  exists w', handleLogout error_message event ip ua hdrs w
             = (Return (mkResponse 200 hdrs (MessageBody "Logged out successfully")), w')
    /\ map is_active (user_sessions w') = map is_active (user_sessions w)
    /\ map session_token (user_sessions w') = map session_token (user_sessions w).
Proof.
  intros Hb Hrows Hf.
  unfold handleLogout. rewrite Hb.
  unfold validateSession, revokeSession, try_catch, db_query, sql_select_session,
    sql_touch_session, sql_deactivate, bind, NOW, new_Date, ret.
  simpl. rewrite Hf. simpl.
  fold (valid_rows token (clock w) (users w) (user_sessions w)). rewrite Hrows. simpl.
  step_log. eexists. split; [reflexivity|].
  match goal with H : user_sessions _ = _ |- _ => rewrite H end.
  apply touch_keeps.
Qed.

End LogoutProofs.

Lemma handleLogout_always_200_witness :
  exists w', handleLogout (fun _ => "error"%string)
               (bearer_event "POST" "/auth/logout" "s1") "10.0.0.1" "agent" []
               two_owner_world
             = (Return (mkResponse 200 [] (MessageBody "Logged out successfully")), w').
Proof.
  apply (handleLogout_always_200 _ _ _ _ _ "s1"%string). reflexivity.
Defined.

Lemma handleLogout_kills_token_witness :
  fst (validateSession "s1"
         (snd (handleLogout (fun _ => "error"%string)
                 (bearer_event "POST" "/auth/logout" "s1") "10.0.0.1" "agent" []
                 two_owner_world))) = Return None.
Proof.
  apply (handleLogout_kills_token (fun _ => "error"%string)
           (bearer_event "POST" "/auth/logout" "s1") "10.0.0.1" "agent" []
           "s1"%string two_owner_world); reflexivity.
Defined.

Lemma handleLogout_revocation_can_fail_witness :
  exists w', handleLogout (fun _ => "error"%string)
               (bearer_event "POST" "/auth/logout" "s1") "10.0.0.1" "agent" []
               (set_faults [false; false; true] two_owner_world)
             = (Return (mkResponse 200 [] (MessageBody "Logged out successfully")), w')
    /\ map is_active (user_sessions w') = [true; true]
    /\ map session_token (user_sessions w') = ["s1"; "s2"]%string.
Proof.
  apply (handleLogout_revocation_can_fail (fun _ => "error"%string)
           (bearer_event "POST" "/auth/logout" "s1") "10.0.0.1" "agent" [] "s1"%string
           (set_faults [false; false; true] two_owner_world)
           (mkSessionContext 1 1 "a@b.c" None 86401000 604801000) [] []);
    reflexivity.
Defined.

(** ** Logout from all devices *)

Lemma touch_fields sid now s :
  session_token (touch sid now s) = session_token s
  /\ user_id (touch sid now s) = user_id s.
Proof. unfold touch. destruct (s_id s =? sid); auto. Qed.

Section LogoutAllProofs.
Variable error_message : Error -> string.

(** X10. On a healthy store, a logout-all request that carries the token
    of a valid session is answered 200 and kills every token of that
    session's owner; one that carries any other token is answered 401
    "Invalid session" and changes no session. *)
Theorem handleLogoutAll_kills_owner event ip ua hdrs token w :
  faults w = [] -> bearer_token event = Some token ->
  (forall row rest,
     valid_rows token (clock w) (users w) (user_sessions w) = row :: rest ->
     exists w', handleLogoutAll error_message event ip ua hdrs w
                = (Return (mkResponse 200 hdrs
                             (MessageBody "Logged out from all devices successfully")), w')
       /\ forall stoken w'',
            user_sessions w'' = user_sessions w' ->
            (forall s, s ∈ user_sessions w -> session_token s = stoken ->
                       user_id s = ctx_userId row) ->
            fst (validateSession stoken w'') = Return None)
  /\ (valid_rows token (clock w) (users w) (user_sessions w) = [] ->
      exists w', handleLogoutAll error_message event ip ua hdrs w
                 = (Return (mkResponse 401 hdrs (ErrorBody "Invalid session")), w')
        /\ user_sessions w' = user_sessions w).
Proof.
  intros Hf Hb.
  destruct (validateSession_run token w Hf) as (w1 & E1 & Hf1 & _ & _ & _ & Hss1).
  split.
  - intros row rest Hrows. rewrite Hrows in E1, Hss1. simpl in E1, Hss1.
    unfold handleLogoutAll. rewrite Hb. unfold try_catch at 1, bind.
    rewrite E1. rewrite (revokeAllUserSessions_run _ w1 Hf1).
    step_log. eexists. split; [reflexivity|].
    intros stoken w'' Hss Hown. apply validateSession_none. intros s Hs Htok.
    rewrite Hss in Hs.
    match goal with H : user_sessions _ = _ |- _ => rewrite H in Hs end.
    rewrite Hss1 in Hs.
    apply list_elem_of_In, in_map_iff in Hs as (s1 & <- & Hs1).
    apply in_map_iff in Hs1 as (s0 & <- & Hs0). apply list_elem_of_In in Hs0.
    rewrite (proj2 (touch_fields _ _ s0)) in *.
    destruct (user_id s0 =? ctx_userId row) eqn:E; [reflexivity|].
    rewrite (proj1 (touch_fields _ _ s0)) in Htok. specialize (Hown s0 Hs0 Htok). lia.
  - intros Hrows. rewrite Hrows in E1, Hss1. simpl in E1, Hss1.
    unfold handleLogoutAll. rewrite Hb. unfold try_catch at 1, bind.
    rewrite E1. unfold ret. eexists. split; [reflexivity|exact Hss1].
Qed.

End LogoutAllProofs.

Lemma handleLogoutAll_kills_owner_witness :
  exists w', handleLogoutAll (fun _ => "error"%string)
               (bearer_event "POST" "/auth/signout-everywhere" "s1") "10.0.0.1" "agent" []
               two_owner_world
             = (Return (mkResponse 200 []
                          (MessageBody "Logged out from all devices successfully")), w')
    /\ fst (validateSession "s1" w') = Return None.
Proof.
  destruct (proj1 (handleLogoutAll_kills_owner (fun _ => "error"%string)
                     (bearer_event "POST" "/auth/signout-everywhere" "s1")
                     "10.0.0.1" "agent" [] "s1"%string two_owner_world eq_refl eq_refl)
              (mkSessionContext 1 1 "a@b.c" None 86401000 604801000) [] eq_refl)
    as (w' & Hrun & Hnone).
  exists w'. split; [exact Hrun|]. apply Hnone; [reflexivity|].
  intros s Hs Htok. apply list_elem_of_In in Hs. simpl in Hs.
  destruct Hs as [<-|[<-|[]]]; [reflexivity|discriminate Htok].
Defined.

(** ** Login *)

Lemma checkRateLimit_tables ident ep ip w :
  let w' := snd (checkRateLimit ident ep ip w) in
  users w' = users w /\ user_sessions w' = user_sessions w /\
  session_seq w' = session_seq w /\ randomBytes w' = randomBytes w /\
  draws w' = draws w.
Proof.
  unfold checkRateLimit.
  destruct (RATE_LIMITS ep) as [limit|]; [|simpl; repeat split; auto].
  unfold try_catch, db_query, sql_select_rate_limit, sql_block, sql_increment,
    sql_reset_window, sql_insert_rate_limit, bind, NOW, new_Date, ret, throw.
  repeat (simpl;
    match goal with
    | |- context [match faults ?x with _ => _ end] => destruct (faults x) as [|[] ?]
    | |- context [match ?l with [] => _ | _ :: _ => _ end] =>
        is_var l; match type of l with list bool => destruct l as [|[] ?] end
    | |- context [match latest ?l with _ => _ end] => destruct (latest l)
    | |- context [match varchar ?n ?s with _ => _ end] => destruct (varchar n s)
    | |- context [match blocked_until ?r with _ => _ end] => destruct (blocked_until r)
    | |- context [match js_add ?a ?b with _ => _ end] => destruct (js_add a b)
    | |- context [if ?c then _ else _] => destruct c
    | |- context [logSecurityEvent _ _ _ _ _ _ _] => step_log
    end); simpl in *; repeat split; congruence.
Qed.

Lemma checkRateLimit_healthy ident ep ip w :
  faults w = [] -> faults (snd (checkRateLimit ident ep ip w)) = [].
Proof.
  intros Hf. unfold checkRateLimit.
  destruct (RATE_LIMITS ep) as [limit|]; [|exact Hf].
  unfold try_catch, db_query, sql_select_rate_limit, sql_block, sql_increment,
    sql_reset_window, sql_insert_rate_limit, bind, NOW, new_Date, ret, throw.
  repeat (simpl; rewrite ?Hf;
    match goal with
    | |- context [match latest ?l with _ => _ end] => destruct (latest l)
    | |- context [match varchar ?n ?s with _ => _ end] => destruct (varchar n s)
    | |- context [match blocked_until ?r with _ => _ end] => destruct (blocked_until r)
    | |- context [match js_add ?a ?b with _ => _ end] => destruct (js_add a b)
    | |- context [if ?c then _ else _] => destruct c
    | |- context [logSecurityEvent _ _ _ _ _ _ _] => step_log
    end); simpl in *; rewrite ?Hf in *; simpl in *; auto.
Qed.

Lemma checkRateLimit_frame ident ep ip w :
  limiter_frame w (snd (checkRateLimit ident ep ip w)).
Proof.
  destruct (checkRateLimit_tables ident ep ip w) as (? & ? & ? & ? & ?).
  unfold limiter_frame. repeat split; auto.
  - apply checkRateLimit_healthy.
  - apply checkRateLimit_clock.
Qed.

Lemma singleton_of_all_equal {A} (l : list A) a :
  NoDup l -> a ∈ l -> (forall x, x ∈ l -> x = a) -> l = [a].
Proof.
  intros Hnd Ha Hall. destruct l as [|x l]; [by apply not_elem_of_nil in Ha|].
  assert (x = a) by (apply Hall; constructor). subst x.
  destruct l as [|y l]; [reflexivity|]. exfalso.
  assert (y = a) by (apply Hall; do 2 constructor). subst y.
  apply NoDup_cons in Hnd as [Hnotin _]. apply Hnotin. constructor.
Qed.

Lemma NoDup_filter_list {A} (f : A -> bool) (l : list A) :
  NoDup l -> NoDup (List.filter f l).
Proof.
  induction 1 as [|x l Hx Hnd IH]; simpl; [constructor|].
  destruct (f x); [|exact IH]. constructor; [|exact IH].
  intros Hin. apply Hx. apply list_elem_of_In in Hin. apply filter_In in Hin as [Hin _].
  apply list_elem_of_In, Hin.
Qed.

(** The SELECT by e-mail returns the one row that has the e-mail. *)
Lemma select_user_unique (us : gmap Z UserRow) uid u e :
  us !! uid = Some u -> email u = e ->
  (forall uid' u', us !! uid' = Some u' -> email u' = e -> uid' = uid) ->
  List.filter (fun p => String.eqb (email (snd p)) e) (map_to_list us) = [(uid, u)].
Proof.
  intros Hu He Huniq. apply singleton_of_all_equal.
  - apply NoDup_filter_list, NoDup_map_to_list.
  - apply list_elem_of_In, filter_In. split.
    + apply list_elem_of_In, elem_of_map_to_list, Hu.
    + simpl. rewrite He. apply String.eqb_refl.
  - intros [uid' u'] Hin. apply list_elem_of_In, filter_In in Hin as [Hin Hx].
    apply list_elem_of_In, elem_of_map_to_list in Hin. simpl in Hx.
    apply String.eqb_eq in Hx. pose proof (Huniq uid' u' Hin Hx). subst uid'.
    rewrite Hu in Hin. injection Hin as <-. reflexivity.
Qed.


Lemma checkAccountLockout_sessions uid w :
  user_sessions (snd (checkAccountLockout uid w)) = user_sessions w.
Proof.
  unfold checkAccountLockout, try_catch, db_query, sql_select_lockout,
    sql_clear_lockout, locked_and, bind, new_Date, ret.
  repeat (simpl;
    match goal with
    | |- context [match faults ?x with _ => _ end] => destruct (faults x) as [|[] ?]
    | |- context [match ?l with [] => _ | _ :: _ => _ end] =>
        is_var l; match type of l with list bool => destruct l as [|[] ?] end
    | |- context [match users ?w !! ?u with _ => _ end] => destruct (users w !! u)
    | |- context [match locked_until ?u with _ => _ end] => destruct (locked_until u)
    | |- context [if ?c then _ else _] => destruct c
    end); reflexivity.
Qed.

Lemma checkAccountLockout_unlocked uid u w :
  faults w = [] -> users w !! uid = Some u -> locked_until u = None ->
  checkAccountLockout uid w = (Return false, w).
Proof.
  intros Hf Hu Hl.
  unfold checkAccountLockout, try_catch, db_query, sql_select_lockout, locked_and,
    bind, ret.
  rewrite Hf. simpl. rewrite Hu, Hl. reflexivity.
Qed.

Lemma handleFailedLogin_sessions uid ip ua w :
  user_sessions (snd (handleFailedLogin uid ip ua w)) = user_sessions w.
Proof.
  unfold handleFailedLogin, try_catch, db_query, sql_record_failure, bind, NOW,
    new_Date, ret, throw.
  repeat (simpl;
    match goal with
    | |- context [match faults ?x with _ => _ end] => destruct (faults x) as [|[] ?]
    | |- context [match users ?w !! ?u with _ => _ end] => destruct (users w !! u)
    | |- context [if ?c then _ else _] => destruct c
    | |- context [logSecurityEvent _ _ _ _ _ _ _] => step_log
    end); simpl in *; congruence.
Qed.

Lemma handleSuccessfulLogin_run uid u ip ua w :
  faults w = [] -> users w !! uid = Some u ->
  exists w', handleSuccessfulLogin uid ip ua w = (Return tt, w')
    /\ users w' = <[uid := mkUser (email u) (name u) 0 None (Some (clock w))]> (users w)
    /\ user_sessions w' = user_sessions w /\ session_seq w' = session_seq w
    /\ randomBytes w' = randomBytes w /\ draws w' = draws w
    /\ faults w' = [] /\ clock w <= clock w'.
Proof.
  intros Hf Hu.
  unfold handleSuccessfulLogin, try_catch, db_query, sql_record_success, bind, NOW,
    new_Date, ret.
  rewrite Hf. cbv beta iota. step_log.
  eexists; split; [reflexivity|]. pose proof (tick_clock w).
  unfold set_users in *; simpl in *. rewrite Hu in *. rewrite Hf in *.
  repeat split; try congruence; try lia; assumption.
Qed.

Lemma existsb_none {A} (f : A -> bool) (l : list A) :
  Forall (fun x => f x = false) l -> existsb f l = false.
Proof. induction 1 as [|x l Hx _ IH]; simpl; [reflexivity|]. rewrite Hx, IH. reflexivity. Qed.


(** An address the INET column does not take: the INSERT is rejected,
    whatever else the store does, and [createSession] throws. *)
Lemma createSession_rejects {P : PgTypes} uid d ip ua w :
  inet_in ip = false ->
  exists w', createSession uid d ip ua w = (Throw (Err "Failed to create session"), w')
    /\ users w' = users w /\ user_sessions w' = user_sessions w
    /\ (faults w = [] -> faults w' = []).
Proof.
  intros Hip.
  unfold createSession, try_catch, generateSecureToken, Date_now, db_query,
    sql_insert_session, bind, NOW, new_Date, ret, throw.
  simpl. rewrite Hip. simpl.
  destruct (faults w) as [|[] l] eqn:Hfw; simpl.
  - eexists. split; [reflexivity|]. simpl. rewrite Hfw. auto.
  - eexists. split; [reflexivity|]. simpl. repeat split. intros H. discriminate H.
  - eexists. split; [reflexivity|]. simpl. repeat split. intros H. discriminate H.
Qed.

Section LoginProofs.
Context {P : PgTypes}.
Variable error_message : Error -> string.
Variable toLowerCase : string -> string.
Variable bcrypt_compare : JsVal -> option string -> Outcome bool.
Variable password_hash : Z -> option string.
Variable stringify_device : string -> string.

Local Abbreviation login :=
  (handleLogin error_message toLowerCase bcrypt_compare password_hash stringify_device).

(** X11. The rate limit comes first: when the limiter denies the address,
    the answer is 429 and neither the users nor the sessions change,
    whatever the request holds (a correct password, a body that does not
    parse). *)
Theorem handleLogin_rate_limited event ip ua hdrs w :
  fst (checkRateLimit ip "login" ip w) = Return false ->
  exists w', login event ip ua hdrs w
             = (Return (mkResponse 429 hdrs
                          (ErrorBody "Too many login attempts. Please try again later.")), w')
    /\ users w' = users w /\ user_sessions w' = user_sessions w.
Proof.
  intros Hdeny. unfold handleLogin, bind at 1.
  destruct (checkRateLimit_frame ip "login" ip w) as (Hu & Hs & _).
  destruct (checkRateLimit ip "login" ip w) as [[r|e] w1]; simpl in *; [|discriminate].
  injection Hdeny as ->. simpl. unfold ret. eauto.
Qed.

(** The request passes the limiter and its fields are read: what is left
    is the body of the [try]. *)
Lemma login_to_lookup event ip ua hdrs e0 password w :
  faults w = [] -> fst (checkRateLimit ip "login" ip w) = Return true ->
  login_inputs event e0 password ->
  exists w1, limiter_frame w w1 /\ w1 = snd (checkRateLimit ip "login" ip w)
    /\ login event ip ua hdrs w
       = try_catch
           (let* rows := db_query (sql_select_user_by_email
                                      (sanitizeString (toLowerCase e0))) in
            match rows with
            | [] =>
                let* _ := logSecurityEvent None "login_invalid_email" (Some ip)
                            (Some ua) false
                            [("email"%string, DStr (sanitizeString (toLowerCase e0)))] in
                ret (mkResponse 401 hdrs (ErrorBody "Invalid email or password"))
            | (uid, user) :: _ =>
                let* locked_ := checkAccountLockout uid in
                if locked_ then
                  let* _ := logSecurityEvent (Some uid) "login_account_locked"
                              (Some ip) (Some ua) false [] in
                  ret (mkResponse 423 hdrs
                         (ErrorBody "Account temporarily locked due to too many failed login attempts"))
                else
                  let* isValidPassword := verifyPassword bcrypt_compare password
                                            (password_hash uid) in
                  if negb isValidPassword then
                    let* lockoutInfo := handleFailedLogin uid ip ua in
                    ret (mkResponse 401 hdrs
                           (FailedLoginBody "Invalid email or password"
                              (Z.max 0 (5 - attempts lockoutInfo))))
                  else
                    let* _ := handleSuccessfulLogin uid ip ua in
                    let* session := createSession uid (stringify_device ua) ip ua in
                    ret (mkResponse 200 hdrs
                           (LoginBody "Login successful" uid (email user) (name user)
                              (sessionToken session) (refreshToken session)
                              (expiresAt session)))
            end)
           (log_and_rethrow error_message "login_error" ip ua
              [("email"%string, DStr (sanitizeString (toLowerCase e0)))]) w1.
Proof.
  intros Hf Hallow (fields & Hbody & Hemail & Hne & Hpw & Htruthy).
  pose proof (checkRateLimit_frame ip "login" ip w) as Hframe.
  exists (snd (checkRateLimit ip "login" ip w)). split; [exact Hframe|].
  split; [reflexivity|].
  unfold handleLogin, bind at 1.
  destruct (checkRateLimit ip "login" ip w) as [[r|e] w1]; simpl in *; [|discriminate].
  injection Hallow as ->. simpl. unfold bind at 1, lift. rewrite Hbody.
  rewrite Hemail, Hpw. simpl.
  destruct (String.eqb e0 EmptyString) eqn:E; [apply String.eqb_eq in E; contradiction|].
  simpl. rewrite Htruthy. simpl. unfold bind at 1, ret. reflexivity.
Qed.

(** X12. The lockout comes before the password: on a healthy store, a
    request that passes the limiter for an account whose lockout is
    pending is answered 423, whatever the password and whatever
    [bcrypt.compare] would say; no user row and no session changes. *)
Theorem handleLogin_locked event ip ua hdrs e0 password uid u l w :
  faults w = [] -> fst (checkRateLimit ip "login" ip w) = Return true ->
  login_inputs event e0 password ->
  only_user_with (users w) uid u (sanitizeString (toLowerCase e0)) ->
  locked_until u = Some l -> clock (snd (checkRateLimit ip "login" ip w)) < l ->
  exists w', login event ip ua hdrs w
             = (Return (mkResponse 423 hdrs
                          (ErrorBody "Account temporarily locked due to too many failed login attempts")), w')
    /\ users w' = users w /\ user_sessions w' = user_sessions w.
Proof.
  intros Hf Hallow Hin (Hu & He & Huniq) Hl Hclk.
  destruct (login_to_lookup event ip ua hdrs e0 password w Hf Hallow Hin)
    as (w1 & (Hus & Hss & _ & _ & _ & Hf1 & _) & Hw1 & ->).
  specialize (Hf1 Hf). rewrite <- Hw1 in Hclk. rewrite <- Hus in Hu, Huniq.
  unfold try_catch at 1, bind at 1, db_query, sql_select_user_by_email.
  rewrite Hf1. rewrite (select_user_unique _ uid u _ Hu He Huniq).
  unfold bind at 1.
  destruct (checkAccountLockout_locked w1 uid u l Hf1 Hu Hl Hclk)
    as (w2 & Hrun & Hus2 & _ & _).
  pose proof (checkAccountLockout_sessions uid w1) as Hss2. rewrite Hrun in *.
  simpl in Hss2. unfold bind. step_log. unfold ret. eexists. split; [reflexivity|].
  split; congruence.
Qed.

(** X13. A wrong password for an account that is not locked: 401 with the
    attempts that remain, [max(0, 5 - attempts)], the failure counted on
    the user's row (and the lockout set when it is the fifth), and no
    session created. *)
Theorem handleLogin_wrong_password event ip ua hdrs e0 password uid u w :
  faults w = [] -> fst (checkRateLimit ip "login" ip w) = Return true ->
  login_inputs event e0 password ->
  only_user_with (users w) uid u (sanitizeString (toLowerCase e0)) ->
  locked_until u = None ->
  bcrypt_compare password (password_hash uid) = Return false ->
  failed_login_attempts u + 1 <= INT_MAX ->
  exists w', login event ip ua hdrs w
             = (Return (mkResponse 401 hdrs
                          (FailedLoginBody "Invalid email or password"
                             (Z.max 0 (5 - (failed_login_attempts u + 1))))), w')
    /\ users w' = <[uid := mkUser (email u) (name u) (failed_login_attempts u + 1)
                      (lockout_of (clock (snd (checkRateLimit ip "login" ip w))) u)
                      (last_login u)]> (users w)
    /\ user_sessions w' = user_sessions w.
Proof.
  intros Hf Hallow Hin (Hu & He & Huniq) Hl Hcmp Hmax.
  destruct (login_to_lookup event ip ua hdrs e0 password w Hf Hallow Hin)
    as (w1 & (Hus & Hss & _ & _ & _ & Hf1 & _) & Hw1 & ->).
  specialize (Hf1 Hf). rewrite <- Hw1. rewrite <- Hus in Hu, Huniq.
  unfold try_catch at 1, bind at 1, db_query, sql_select_user_by_email.
  rewrite Hf1. rewrite (select_user_unique _ uid u _ Hu He Huniq).
  unfold bind at 1. rewrite (checkAccountLockout_unlocked uid u w1 Hf1 Hu Hl).
  unfold bind at 1, verifyPassword, lift. rewrite Hcmp. simpl.
  destruct (handleFailedLogin_run w1 uid u ip ua Hf1 Hu Hmax)
    as (w2 & Hrun & Hus2 & _ & _).
  pose proof (handleFailedLogin_sessions uid ip ua w1) as Hss2.
  unfold bind, ret. rewrite Hrun in *. simpl in *.
  eexists. split; [reflexivity|]. split; congruence.
Qed.



(** X30. The right password from a client address that the INET column
    does not take (an [x-forwarded-for] that lists two hops, say): the
    handler throws "Failed to create session", which the dispatcher
    answers with 500; by then the success has been recorded on the user's
    row (counter reset, lockout cleared, [last_login] set).  No session
    is created. *)
Theorem handleLogin_bad_address event ip ua hdrs e0 password uid u w :
  faults w = [] -> fst (checkRateLimit ip "login" ip w) = Return true ->
  inet_in ip = false ->
  login_inputs event e0 password ->
  only_user_with (users w) uid u (sanitizeString (toLowerCase e0)) ->
  locked_until u = None ->
  bcrypt_compare password (password_hash uid) = Return true ->
  exists w' t,
    login event ip ua hdrs w = (Throw (Err "Failed to create session"), w')
    /\ users w' = <[uid := mkUser (email u) (name u) 0 None (Some t)]> (users w)
    /\ user_sessions w' = user_sessions w.
Proof.
  intros Hf Hallow Hip Hin (Hu & He & Huniq) Hl Hcmp.
  destruct (login_to_lookup event ip ua hdrs e0 password w Hf Hallow Hin)
    as (w1 & (Hus & Hss & _ & _ & _ & Hf1 & _) & Hw1 & ->).
  specialize (Hf1 Hf). rewrite <- Hus in Hu, Huniq.
  unfold try_catch at 1, bind at 1, db_query, sql_select_user_by_email.
  rewrite Hf1. rewrite (select_user_unique _ uid u _ Hu He Huniq).
  unfold bind at 1. rewrite (checkAccountLockout_unlocked uid u w1 Hf1 Hu Hl).
  unfold bind at 1, verifyPassword, lift. rewrite Hcmp. simpl.
  destruct (handleSuccessfulLogin_run uid u ip ua w1 Hf1 Hu)
    as (w2 & Hrun & Hus2 & Hss2 & _).
  unfold bind at 1. rewrite Hrun.
  destruct (createSession_rejects uid (stringify_device ua) ip ua w2 Hip)
    as (w3 & Hcreate & Hus3 & Hss3 & _).
  unfold bind at 1. rewrite Hcreate. unfold log_and_rethrow, bind. step_log.
  unfold throw. eexists; exists (clock w1). split; [reflexivity|].
  split; congruence.
Qed.

End LoginProofs.

Lemma only_user_singleton uid u :
  only_user_with {[ uid := u ]} uid u (email u).
Proof.
  split; [apply lookup_singleton_eq|]. split; [reflexivity|].
  intros uid' u' H _. apply lookup_singleton_Some in H. symmetry. apply H.
Qed.

Lemma login_event_inputs e p :
  e <> EmptyString -> p <> EmptyString -> login_inputs (login_event e p) e (JStr p).
Proof.
  intros He Hp. exists (fun k => if String.eqb k "email" then JStr e
                     else if String.eqb k "password" then JStr p else JUndefined).
  repeat split; try assumption.
  simpl. destruct p; [contradiction|reflexivity].
Qed.

Lemma handleLogin_rate_limited_witness :
  exists w', handleLogin (P := demo_pg) (fun _ => "error"%string) (fun s => s) demo_bcrypt demo_hash
               (fun s => s) (login_event "a@b.c" "Secret1!") "1.2.3.4" "agent" []
               limited_world
             = (Return (mkResponse 429 []
                          (ErrorBody "Too many login attempts. Please try again later.")), w')
    /\ users w' = users limited_world /\ user_sessions w' = user_sessions limited_world.
Proof.
  apply (handleLogin_rate_limited (P := demo_pg) (fun _ => "error"%string) (fun s => s) demo_bcrypt
           demo_hash (fun s => s) (login_event "a@b.c" "Secret1!") "1.2.3.4" "agent" []
           limited_world).
  vm_compute. reflexivity.
Defined.

Lemma handleLogin_locked_witness :
  exists w', handleLogin (P := demo_pg) (fun _ => "error"%string) (fun s => s) demo_bcrypt demo_hash
               (fun s => s) (login_event "a@b.c" "Secret1!") "1.2.3.4" "agent" []
               locked_world
             = (Return (mkResponse 423 []
                          (ErrorBody "Account temporarily locked due to too many failed login attempts")), w')
    /\ users w' = users locked_world /\ user_sessions w' = user_sessions locked_world.
Proof.
  apply (handleLogin_locked (P := demo_pg) (fun _ => "error"%string) (fun s => s) demo_bcrypt
           demo_hash (fun s => s) (login_event "a@b.c" "Secret1!") "1.2.3.4" "agent" []
           "a@b.c"%string (JStr "Secret1!") 1 (mkUser "a@b.c" None 5 (Some 5000) None)
           5000 locked_world).
  - reflexivity.
  - vm_compute. reflexivity.
  - apply login_event_inputs; discriminate.
  - apply (only_user_singleton 1 (mkUser "a@b.c" None 5 (Some 5000) None)).
  - reflexivity.
  - vm_compute. reflexivity.
Defined.

Lemma handleLogin_wrong_password_witness :
  exists w', handleLogin (P := demo_pg) (fun _ => "error"%string) (fun s => s) demo_bcrypt demo_hash
               (fun s => s) (login_event "a@b.c" "guess") "1.2.3.4" "agent" []
               demo_world
             = (Return (mkResponse 401 []
                          (FailedLoginBody "Invalid email or password" 4)), w')
    /\ users w' = <[1 := mkUser "a@b.c" None 1 None None]> (users demo_world)
    /\ user_sessions w' = [].
Proof.
  apply (handleLogin_wrong_password (P := demo_pg) (fun _ => "error"%string) (fun s => s) demo_bcrypt
           demo_hash (fun s => s) (login_event "a@b.c" "guess") "1.2.3.4" "agent" []
           "a@b.c"%string (JStr "guess") 1 demo_user demo_world).
  - reflexivity.
  - vm_compute. reflexivity.
  - apply login_event_inputs; discriminate.
  - apply (only_user_singleton 1 demo_user).
  - reflexivity.
  - reflexivity.
  - vm_compute. discriminate.
Defined.


Lemma handleLogin_bad_address_witness :
  exists w' t,
    handleLogin (P := demo_pg) (fun _ => "error"%string) (fun s => s) demo_bcrypt
      demo_hash (fun s => s) (login_event "a@b.c" "Secret1!") "1.2.3.4, 10.0.0.1"
      "agent" [] demo_world
    = (Throw (Err "Failed to create session"), w')
    /\ users w' = <[1 := mkUser "a@b.c" None 0 None (Some t)]> (users demo_world)
    /\ user_sessions w' = user_sessions demo_world.
Proof.
  apply (handleLogin_bad_address (P := demo_pg) (fun _ => "error"%string) (fun s => s)
           demo_bcrypt demo_hash (fun s => s) (login_event "a@b.c" "Secret1!")
           "1.2.3.4, 10.0.0.1" "agent" [] "a@b.c"%string (JStr "Secret1!") 1 demo_user
           demo_world).
  - reflexivity.
  - vm_compute. reflexivity.
  - reflexivity.
  - apply login_event_inputs; discriminate.
  - apply (only_user_singleton 1 demo_user).
  - reflexivity.
  - reflexivity.
Defined.


(** ** Refresh *)

(** When [refreshSession] answers [null] the session table is as it was. *)
Lemma refreshSession_null_frame rtoken w w' :
  refreshSession rtoken w = (Return None, w') -> user_sessions w' = user_sessions w.
Proof.
  unfold refreshSession, try_catch, generateSecureToken, Date_now, db_query,
    sql_select_refresh, sql_rotate_session, bind, NOW, new_Date, ret, throw.
  repeat (simpl;
    match goal with
    | |- context [match faults ?x with _ => _ end] => destruct (faults x) as [|[] ?]
    | |- context [match ?l with [] => _ | _ :: _ => _ end] =>
        is_var l; match type of l with list bool => destruct l as [|[] ?] end
    | |- context [match omap ?f ?l with _ => _ end] => destruct (omap f l) as [|[[? ?] ?] ?]
    | |- context [if ?c then _ else _] => destruct c
    end); simpl; intros H; inversion H; reflexivity.
Qed.

Section RefreshProofs.
Variable error_message : Error -> string.
Variable prepareValue : JsVal -> string.

Local Abbreviation refresh := (handleRefresh error_message prepareValue).

(** X16. A refresh request whose body parses is always answered, with 200,
    400 or 401: nothing the store does reaches the [catch] of the handler,
    because [refreshSession] turns every failure into [null].  Unless the
    answer is 200 the session table is as it was. *)
Theorem handleRefresh_answers event ip ua hdrs fields w :
  body event = Return fields ->
  exists response w',
    handleRefresh error_message prepareValue event ip ua hdrs w = (Return response, w')
    /\ (statusCode response = 200
        \/ (statusCode response = 400 \/ statusCode response = 401)
           /\ user_sessions w' = user_sessions w).
Proof.
  intros Hbody. unfold handleRefresh, bind at 1, lift. rewrite Hbody.
  destruct (truthy (fields "refreshToken"%string)); simpl.
  2:{ unfold ret. eexists; eexists; split; [reflexivity|]. simpl. auto. }
  unfold try_catch, bind at 1.
  destruct (try_catch_default
              (let* rows := db_query (sql_select_refresh
                                        (sql_param prepareValue (fields "refreshToken"%string))) in
               match rows with
               | [] => ret None
               | (sid, uid, _) :: _ =>
                   let* newSessionToken := generateSecureToken in
                   let* newRefreshToken := generateSecureToken in
                   let* d1 := Date_now in
                   let* d2 := Date_now in
                   let* _ := db_query (sql_rotate_session newSessionToken newRefreshToken
                                         (d1 + 24 * 60 * 60 * 1000)
                                         (d2 + 7 * 24 * 60 * 60 * 1000) sid) in
                   ret (Some (mkRefreshInfo sid uid newSessionToken newRefreshToken
                                (d1 + 24 * 60 * 60 * 1000) (d2 + 7 * 24 * 60 * 60 * 1000)))
               end) None w) as (r & w1 & Hrun).
  change (refreshSession (sql_param prepareValue (fields "refreshToken"%string)) w
          = (Return r, w1)) in Hrun.
  rewrite Hrun. destruct r as [s|].
  - unfold bind. step_log. unfold ret. eexists; eexists; split; [reflexivity|].
    simpl. auto.
  - apply refreshSession_null_frame in Hrun.
    unfold bind. step_log. unfold ret. eexists; eexists; split; [reflexivity|].
    simpl. right. split; [auto|congruence].
Qed.

(** X17. When the store rejects the first query of a refresh, the client
    is told 401 "Invalid or expired refresh token", whatever the token:
    an outage cannot be told from a token that is not valid. *)
Theorem handleRefresh_outage_is_401 event ip ua hdrs fields more w :
  body event = Return fields -> truthy (fields "refreshToken"%string) = true ->
  faults w = true :: more ->
  exists w', refresh event ip ua hdrs w
             = (Return (mkResponse 401 hdrs
                          (ErrorBody "Invalid or expired refresh token")), w')
    /\ user_sessions w' = user_sessions w.
Proof.
  intros Hbody Htok Hf. unfold handleRefresh, bind at 1, lift. rewrite Hbody, Htok.
  simpl. unfold try_catch at 1, bind at 1, refreshSession, try_catch, bind at 1,
    db_query. rewrite Hf. simpl. unfold ret at 1.
  unfold bind. step_log. unfold ret. eexists. split; [reflexivity|]. assumption.
Qed.

(** X18. A refresh token works once.  On a healthy store a request with the
    refresh token of an active, unexpired session is answered 200 with the
    next two draws of the generator as new tokens; the same request sent
    again, to the world the first one left, is answered 401. *)
Theorem handleRefresh_single_use event ip ua hdrs fields rtoken s w :
  body event = Return fields -> fields "refreshToken"%string = JStr rtoken ->
  rtoken <> EmptyString ->
  faults w = [] -> sessions_wf (user_sessions w) ->
  s ∈ user_sessions w -> refresh_token s = rtoken -> is_active s = true ->
  clock w < refresh_expires_at s ->
  (forall x, x ∈ user_sessions w -> session_token x <> randomBytes w (draws w)) ->
  (forall x, x ∈ user_sessions w -> refresh_token x <> randomBytes w (S (draws w))) ->
  exists w' exp,
    refresh event ip ua hdrs w
    = (Return (mkResponse 200 hdrs
                 (RefreshBody "Session refreshed successfully"
                    (randomBytes w (draws w)) (randomBytes w (S (draws w))) exp)), w')
    /\ clock w < exp
    /\ exists w'', refresh event ip ua hdrs w'
                   = (Return (mkResponse 401 hdrs
                                (ErrorBody "Invalid or expired refresh token")), w'').
Proof.
  intros Hbody Hfield Hne Hf Hwf Hs Htok Hact Hexp Hfresh1 Hfresh2.
  assert (Htruthy : truthy (JStr rtoken) = true).
  { simpl. destruct rtoken; [contradiction|reflexivity]. }
  destruct (refreshSession_rotates rtoken s w Hf Hwf Hs Htok Hact Hexp Hfresh1 Hfresh2)
    as (w1 & d1 & d2 & now & Hrun & Hd1 & _ & _ & Hrows).
  assert (Hgone : forall x, x ∈ user_sessions w1 -> refresh_token x <> rtoken).
  { intros x Hx Hx_tok. rewrite Hrows in Hx.
    apply list_elem_of_fmap in Hx. destruct Hx as (y & -> & Hy).
    destruct (s_id y =? s_id s) eqn:E.
    - unfold rotate in Hx_tok. simpl in Hx_tok.
      apply (Hfresh2 s Hs). congruence.
    - destruct Hwf as (Hid & _ & Hrt).
      assert (y = s); [|subst y; rewrite Z.eqb_refl in E; discriminate].
      apply (NoDup_map_eq refresh_token (user_sessions w)); auto. congruence. }
  unfold handleRefresh at 1, bind at 1, lift. rewrite Hbody, Hfield, Htruthy. simpl.
  unfold try_catch at 1, bind at 1. rewrite Hrun.
  unfold bind. step_log. unfold ret. eexists; eexists. split; [reflexivity|].
  split; [lia|].
  match goal with |- context [handleRefresh _ _ _ _ _ _ ?x] =>
    destruct (refreshSession_null rtoken x) as (w3 & Hrun3 & _) end.
  { intros y Hy Hy_tok. exfalso. apply (Hgone y); [congruence|assumption]. }
  unfold handleRefresh, bind at 1, lift. rewrite Hbody, Hfield. simpl.
  rewrite Htruthy. simpl.
  unfold try_catch at 1, bind at 1. rewrite Hrun3.
  unfold bind. step_log. unfold ret. eexists. reflexivity.
Qed.

End RefreshProofs.

Lemma handleRefresh_answers_witness :
  exists response w',
    handleRefresh (fun _ => "error"%string) (fun _ => "null"%string)
      (refresh_event JNull) "1.2.3.4" "agent" [] two_owner_world = (Return response, w')
    /\ (statusCode response = 200
        \/ (statusCode response = 400 \/ statusCode response = 401)
           /\ user_sessions w' = user_sessions two_owner_world).
Proof.
  apply (handleRefresh_answers (fun _ => "error"%string) (fun _ => "null"%string)
           (refresh_event JNull) "1.2.3.4" "agent" []
           (fun k => if String.eqb k "refreshToken" then JNull else JUndefined)
           two_owner_world).
  reflexivity.
Defined.

Lemma handleRefresh_outage_is_401_witness :
  exists w',
    handleRefresh (fun _ => "error"%string) (fun _ => "null"%string)
      (refresh_event (JStr "r1")) "1.2.3.4" "agent" [] outage_world
    = (Return (mkResponse 401 [] (ErrorBody "Invalid or expired refresh token")), w')
    /\ user_sessions w' = user_sessions outage_world.
Proof.
  apply (handleRefresh_outage_is_401 (fun _ => "error"%string) (fun _ => "null"%string)
           (refresh_event (JStr "r1")) "1.2.3.4" "agent" []
           (fun k => if String.eqb k "refreshToken" then JStr "r1" else JUndefined)
           [] outage_world); reflexivity.
Defined.

Lemma handleRefresh_single_use_witness :
  exists w' exp,
    handleRefresh (fun _ => "error"%string) (fun _ => "null"%string)
      (refresh_event (JStr "r1")) "1.2.3.4" "agent" [] two_owner_world
    = (Return (mkResponse 200 []
                 (RefreshBody "Session refreshed successfully" "Atok" "Btok" exp)), w')
    /\ clock two_owner_world < exp
    /\ exists w'',
         handleRefresh (fun _ => "error"%string) (fun _ => "null"%string)
           (refresh_event (JStr "r1")) "1.2.3.4" "agent" [] w'
         = (Return (mkResponse 401 [] (ErrorBody "Invalid or expired refresh token")), w'').
Proof.
  apply (handleRefresh_single_use (fun _ => "error"%string) (fun _ => "null"%string)
           (refresh_event (JStr "r1")) "1.2.3.4" "agent" []
           (fun k => if String.eqb k "refreshToken" then JStr "r1" else JUndefined)
           "r1"%string (demo_session 1 1 "s1" "r1") two_owner_world).
  - reflexivity.
  - reflexivity.
  - discriminate.
  - reflexivity.
  - repeat split; apply (bool_decide_unpack _); vm_compute; exact I.
  - by constructor.
  - reflexivity.
  - reflexivity.
  - vm_compute. reflexivity.
  - intros x Hx Htok. apply list_elem_of_In in Hx. simpl in Hx.
    destruct Hx as [<-|[<-|[]]]; discriminate Htok.
  - intros x Hx Htok. apply list_elem_of_In in Hx. simpl in Hx.
    destruct Hx as [<-|[<-|[]]]; discriminate Htok.
Defined.

(** ** Sanitizing *)

Lemma trim_start_In a s : In a (trim_start s) -> In a s.
Proof.
  induction s as [|b s IH]; simpl; [auto|].
  destruct (is_space b); [auto|]. simpl. auto.
Qed.

Lemma trim_In a s : In a (trim s) -> In a s.
Proof.
  unfold trim. intros H. apply in_rev in H. apply trim_start_In in H.
  apply in_rev in H. apply trim_start_In in H. exact H.
Qed.

Lemma list_ascii_of_string_app s1 s2 :
  String.list_ascii_of_string (s1 ++ s2)
  = String.list_ascii_of_string s1 ++ String.list_ascii_of_string s2.
Proof. induction s1 as [|a s1 IH]; simpl; [reflexivity|]. rewrite IH. reflexivity. Qed.

Lemma trim_start_keeps a s : is_space a = false -> trim_start (a :: s) = a :: s.
Proof. intros H. simpl. rewrite H. reflexivity. Qed.

(** X19. What [sanitizeInput] gives back for a string holds no angle
    bracket and no character that the input did not hold; a value that is
    not a string comes back as it is. *)
Theorem sanitizeInput_strips_brackets :
  (forall s a, In a (String.list_ascii_of_string (sanitizeString s)) ->
               a <> chr "<" /\ a <> chr ">" /\ In a (String.list_ascii_of_string s))
  /\ (forall v, (forall s, v <> JStr s) -> sanitizeInput v = v).
Proof.
  split.
  - intros s a. unfold sanitizeString.
    rewrite String.list_ascii_of_string_of_list_ascii.
    intros H. apply filter_In in H. destruct H as [Hin Hf].
    apply negb_true_iff, orb_false_iff in Hf. destruct Hf as [H1 H2]. simpl in H1, H2.
    apply Ascii.eqb_neq in H1, H2. repeat split; auto. apply trim_In. exact Hin.
  - intros v Hv. destruct v; try reflexivity. exfalso. eapply Hv. reflexivity.
Qed.

(** X20. The brackets are removed after the trimming, not before: white
    space that a bracket shields from [trim] is still there in the result,
    which for [<t>] is [t] without its brackets, untrimmed.  So sanitizing
    twice is not sanitizing once. *)
Theorem sanitizeInput_trims_first t :
  sanitizeString ("<" ++ t ++ ">")
  = String.string_of_list_ascii
      (List.filter (fun a => negb (is_char "<" a || is_char ">" a))
                   (String.list_ascii_of_string t)).
Proof.
  unfold sanitizeString. f_equal.
  change ("<" ++ t ++ ">")%string with (String (chr "<") (t ++ ">")).
  cbn [String.list_ascii_of_string]. rewrite list_ascii_of_string_app.
  cbn [String.list_ascii_of_string].
  assert (Htrim : forall l, trim (chr "<" :: l ++ [chr ">"]) = chr "<" :: l ++ [chr ">"]).
  { intros l. unfold trim. rewrite trim_start_keeps by reflexivity.
    change (chr "<" :: l ++ [chr ">"]) with ([chr "<"] ++ l ++ [chr ">"]).
    rewrite !rev_app_distr. cbn [rev app]. rewrite trim_start_keeps by reflexivity.
    change (chr ">" :: rev l ++ [chr "<"]) with ([chr ">"] ++ rev l ++ [chr "<"]).
    rewrite !rev_app_distr. cbn [rev app]. rewrite rev_involutive. reflexivity. }
  rewrite Htrim. cbn [List.filter]. 
  change (negb (is_char "<" (chr "<") || is_char ">" (chr "<"))) with false.
  cbv iota. induction (String.list_ascii_of_string t) as [|a l IH]; [reflexivity|].
  cbn [app List.filter]. rewrite IH. reflexivity.
Qed.

(** ** A session from creation to expiry *)



(** X29. For an address that the INET column does not take,
    [createSession] throws "Failed to create session", whatever the user,
    the tables and the faults of the store, and adds no session. *)
Theorem createSession_needs_an_address {P : PgTypes} uid d ip ua w :
  inet_in ip = false ->
  exists w', createSession uid d ip ua w = (Throw (Err "Failed to create session"), w')
    /\ users w' = users w /\ user_sessions w' = user_sessions w.
Proof.
  intros Hip.
  destruct (createSession_rejects uid d ip ua w Hip) as (w' & Hrun & Hus & Hss & _).
  exists w'. auto.
Qed.

Lemma createSession_needs_an_address_witness :
  exists w', createSession (P := demo_pg) 1 "web" "1.2.3.4, 10.0.0.1" "agent" demo_world
             = (Throw (Err "Failed to create session"), w')
    /\ users w' = users demo_world /\ user_sessions w' = user_sessions demo_world.
Proof.
  apply (createSession_needs_an_address (P := demo_pg) 1 "web" "1.2.3.4, 10.0.0.1"
           "agent" demo_world).
  reflexivity.
Defined.

(** ** Encrypted data at rest *)

Lemma newest_last rows r :
  Forall (fun x => d_created_at x < d_created_at r) rows ->
  newest (rows ++ [r]) = Some r.
Proof.
  induction 1 as [|x rows Hx _ IH]; simpl; [reflexivity|].
  rewrite IH. destruct (d_created_at x <? d_created_at r) eqn:E; [reflexivity|lia].
Qed.

Lemma filter_none {A} (f : A -> bool) (l : list A) :
  Forall (fun x => f x = false) l -> List.filter f l = [].
Proof. induction 1 as [|x l Hx _ IH]; simpl; [reflexivity|]. rewrite Hx. exact IH. Qed.

Section VaultProofs.
Context {C : NodeCrypto}.

Lemma encrypt_returns (L : NodeCryptoLaws C) this salt_ iv_ (x : Value) :
  serializable x ->
  exists r, encrypt this salt_ iv_ x = Return r /\ decrypt this r = Return x
            /\ keyId r = fingerprint (masterKey this).
Proof.
  intros (text & Hs & Hp). unfold encrypt. rewrite Hs.
  pose proof (decipher_cipher ENCRYPTION_ALGORITHM (deriveKey (masterKey this) salt_)
                salt_ text) as Hdec.
  destruct (cipher ENCRYPTION_ALGORITHM (deriveKey (masterKey this) salt_) salt_ text)
    as [enc tag]. simpl in Hdec.
  eexists. split; [reflexivity|]. split; [|reflexivity].
  unfold decrypt. simpl. rewrite String.eqb_refl. simpl.
  rewrite !from_base64_to_base64, Hdec, Hp. reflexivity.
Qed.

(** A store that goes through: the id is the next value of the sequence
    and the one row added holds a record that decrypts to the data. *)
Lemma storeEncryptedData_run (L : NodeCryptoLaws C) this uid dataType (data : Value) v :
  serializable data -> faults (world v) = [] -> is_Some (users (world v) !! uid) ->
  (String.length dataType <= 50)%nat ->
  Forall (fun r => d_id r <> encrypted_data_seq v) (encrypted_data v) ->
  exists enc v',
    storeEncryptedData this uid dataType data v = (Return (encrypted_data_seq v), v')
    /\ decrypt this enc = Return data
    /\ keyId enc = fingerprint (masterKey this)
    /\ encrypted_data v'
       = encrypted_data v ++ [mkDataRow (encrypted_data_seq v) uid dataType enc
                                (keyId enc) (clock (world v))]
    /\ world v' = tick (world v).
Proof.
  intros Hser Hf [u Hu] Hlen Hnew.
  destruct (encrypt_returns L this (randomBytes16 v (draws16 v))
              (randomBytes16 v (S (draws16 v))) data Hser) as (enc & Henc & Hdec & Hkey).
  exists enc. unfold storeEncryptedData, try_catchV, encryptionManager_encrypt, bindV,
    randomBytes_16, liftV, vault_query, sql_insert_encrypted, retV, throwV.
  simpl. rewrite Henc, Hf. simpl. rewrite Hu. simpl.
  apply Nat.leb_le in Hlen. rewrite Hlen. simpl.
  assert (Hk : (String.length (keyId enc) <=? 64)%nat = true).
  { apply Nat.leb_le. rewrite Hkey. unfold fingerprint.
    pose proof (substring_length 16 (sha256_hex (masterKey this))). lia. }
  rewrite Hk. simpl.
  rewrite (existsb_none (fun r => d_id r =? encrypted_data_seq v)).
  2:{ eapply Forall_impl; [exact Hnew|]. simpl. intros r Hr. apply Z.eqb_neq. exact Hr. }
  simpl. eexists. repeat split; auto.
Qed.

Lemma retrieve_by_id this uid dataType id_ v :
  faults (world v) = [] -> id_ <> 0 ->
  retrieveEncryptedData this uid dataType (Some id_) v
  = match map d_encrypted_data
            (List.filter (fun r => (d_id r =? id_) && (d_user_id r =? uid))
                         (encrypted_data v)) with
    | [] => (Return None, v)
    | row :: _ =>
        match decrypt this row with
        | Return data => (Return (Some data), v)
        | Throw _ => (Throw (Err "Failed to retrieve encrypted data"), v)
        end
    end.
Proof.
  intros Hf Hid. apply Z.eqb_neq in Hid.
  unfold retrieveEncryptedData, try_catchV, bindV, vault_query,
    sql_select_encrypted_by_id, liftV, retV, throwV.
  rewrite Hid, Hf.
  destruct (map d_encrypted_data _) as [|row rows]; [reflexivity|].
  destruct (decrypt this row); reflexivity.
Qed.

(** X22. What [storeEncryptedData] stores, [retrieveEncryptedData] gives
    back by its id, to its owner only.  On a healthy store, for data that
    survives the JSON round trip, a user that exists and a [dataType]
    that fits its column, the call returns the next id of the sequence;
    then retrieving by that id returns the data for the owner, whatever
    [dataType] is passed (with an id the type is not looked at), and
    [null] for any other user. *)
Theorem store_then_retrieve (L : NodeCryptoLaws C) this uid dataType (data : Value) v :
  serializable data -> faults (world v) = [] -> is_Some (users (world v) !! uid) ->
  (String.length dataType <= 50)%nat ->
  Forall (fun r => d_id r <> encrypted_data_seq v) (encrypted_data v) ->
  encrypted_data_seq v <> 0 ->
  exists v',
    storeEncryptedData this uid dataType data v = (Return (encrypted_data_seq v), v')
    /\ (forall anyType,
          retrieveEncryptedData this uid anyType (Some (encrypted_data_seq v)) v'
          = (Return (Some data), v'))
    /\ (forall other anyType, other <> uid ->
          retrieveEncryptedData this other anyType (Some (encrypted_data_seq v)) v'
          = (Return None, v')).
Proof.
  intros Hser Hf Hu Hlen Hnew Hid.
  destruct (storeEncryptedData_run L this uid dataType data v Hser Hf Hu Hlen Hnew)
    as (enc & v' & Hrun & Hdec & _ & Hrows & Hw).
  exists v'. split; [exact Hrun|].
  assert (Hf' : faults (world v') = []) by (rewrite Hw; exact Hf).
  assert (Hold : forall who, List.filter (fun r => (d_id r =? encrypted_data_seq v)
                                         && (d_user_id r =? who)) (encrypted_data v) = []).
  { intros who. apply filter_none. eapply Forall_impl; [exact Hnew|]. simpl.
    intros r Hr. apply Z.eqb_neq in Hr. rewrite Hr. reflexivity. }
  split.
  - intros anyType. rewrite (retrieve_by_id this uid anyType _ v' Hf' Hid).
    rewrite Hrows, List.filter_app, Hold. simpl. rewrite !Z.eqb_refl. simpl.
    rewrite Hdec. reflexivity.
  - intros other anyType Hne. rewrite (retrieve_by_id this other anyType _ v' Hf' Hid).
    rewrite Hrows, List.filter_app, Hold. simpl. rewrite Z.eqb_refl. simpl.
    apply Z.eqb_neq in Hne. rewrite Z.eqb_sym, Hne. reflexivity.
Qed.

(** X23. Retrieving by id never gives a user the data of a row that is
    not theirs: when every row with that id belongs to someone else, the
    call returns no data, whatever the store does. *)
Theorem retrieve_is_per_user this uid dataType id_ v :
  id_ <> 0 ->
  Forall (fun r => d_id r = id_ -> d_user_id r <> uid) (encrypted_data v) ->
  forall data, fst (retrieveEncryptedData this uid dataType (Some id_) v)
               <> Return (Some data).
Proof.
  intros Hid Hrows data. apply Z.eqb_neq in Hid.
  assert (Hnone : List.filter (fun r => (d_id r =? id_) && (d_user_id r =? uid))
                              (encrypted_data v) = []).
  { apply filter_none. eapply Forall_impl; [exact Hrows|]. simpl. intros r Hr.
    destruct (d_id r =? id_) eqn:E; [|reflexivity]. apply Z.eqb_eq in E.
    apply Hr in E. apply Z.eqb_neq in E. rewrite E. reflexivity. }
  unfold retrieveEncryptedData, try_catchV, bindV, vault_query,
    sql_select_encrypted_by_id, liftV, retV, throwV. rewrite Hid.
  destruct (faults (world v)) as [|[] fs]; simpl; try rewrite Hnone; simpl; discriminate.
Qed.

(** X24. After the master key has changed, what was stored is not [null]
    but an error: data stored under one manager and retrieved, by id and
    by its owner, under a manager whose key has another fingerprint
    throws "Failed to retrieve encrypted data". *)
Theorem retrieve_under_other_key (L : NodeCryptoLaws C) this1 this2 uid dataType
    (data : Value) v :
  serializable data -> faults (world v) = [] -> is_Some (users (world v) !! uid) ->
  (String.length dataType <= 50)%nat ->
  Forall (fun r => d_id r <> encrypted_data_seq v) (encrypted_data v) ->
  encrypted_data_seq v <> 0 ->
  fingerprint (masterKey this1) <> fingerprint (masterKey this2) ->
  exists v',
    storeEncryptedData this1 uid dataType data v = (Return (encrypted_data_seq v), v')
    /\ retrieveEncryptedData this2 uid dataType (Some (encrypted_data_seq v)) v'
       = (Throw (Err "Failed to retrieve encrypted data"), v').
Proof.
  intros Hser Hf Hu Hlen Hnew Hid Hfp.
  destruct (storeEncryptedData_run L this1 uid dataType data v Hser Hf Hu Hlen Hnew)
    as (enc & v' & Hrun & _ & Hkey & Hrows & Hw).
  exists v'. split; [exact Hrun|].
  assert (Hf' : faults (world v') = []) by (rewrite Hw; exact Hf).
  rewrite (retrieve_by_id this2 uid dataType _ v' Hf' Hid).
  rewrite Hrows, List.filter_app, filter_none.
  2:{ eapply Forall_impl; [exact Hnew|]. simpl.
      intros r Hr. apply Z.eqb_neq in Hr. rewrite Hr. reflexivity. }
  simpl. rewrite !Z.eqb_refl. simpl.
  unfold decrypt. rewrite Hkey. apply String.eqb_neq in Hfp. rewrite Hfp. reflexivity.
Qed.

(** X25. Without an id (or with the id 0, which is falsy) the latest row
    of the user and type is read: after a store at a time later than
    every row the user has of that type, retrieving by type gives the
    data just stored. *)
Theorem retrieve_latest (L : NodeCryptoLaws C) this uid dataType (data : Value) v :
  serializable data -> faults (world v) = [] -> is_Some (users (world v) !! uid) ->
  (String.length dataType <= 50)%nat ->
  Forall (fun r => d_id r <> encrypted_data_seq v) (encrypted_data v) ->
  Forall (fun r => d_user_id r = uid -> d_data_type r = dataType ->
                   d_created_at r < clock (world v)) (encrypted_data v) ->
  exists id_ v',
    storeEncryptedData this uid dataType data v = (Return id_, v')
    /\ retrieveEncryptedData this uid dataType None v' = (Return (Some data), v')
    /\ retrieveEncryptedData this uid dataType (Some 0) v' = (Return (Some data), v').
Proof.
  intros Hser Hf Hu Hlen Hnew Hlate.
  destruct (storeEncryptedData_run L this uid dataType data v Hser Hf Hu Hlen Hnew)
    as (enc & v' & Hrun & Hdec & _ & Hrows & Hw).
  exists (encrypted_data_seq v), v'. split; [exact Hrun|].
  assert (Hf' : faults (world v') = []) by (rewrite Hw; exact Hf).
  assert (Hsel : newest (List.filter (fun r => (d_user_id r =? uid)
                                       && String.eqb (d_data_type r) dataType)
                           (encrypted_data v'))
                 = Some (mkDataRow (encrypted_data_seq v) uid dataType enc (keyId enc)
                           (clock (world v)))).
  { rewrite Hrows, List.filter_app. simpl. rewrite Z.eqb_refl, String.eqb_refl. simpl.
    apply newest_last. simpl. apply List.Forall_forall. intros r Hr.
    apply filter_In in Hr. destruct Hr as [Hin Hr]. apply andb_true_iff in Hr.
    destruct Hr as [H1 H2]. apply Z.eqb_eq in H1. apply String.eqb_eq in H2.
    rewrite List.Forall_forall in Hlate. apply (Hlate r); auto. }
  split; unfold retrieveEncryptedData, try_catchV, bindV, vault_query,
    sql_select_latest_encrypted, liftV, retV, throwV; simpl;
    rewrite Hf', Hsel; simpl; rewrite Hdec; reflexivity.
Qed.

(** X26. The two functions throw nothing but their own error: whatever
    fails inside (the cipher, the store, a record that does not decrypt)
    reaches the caller as "Failed to store encrypted data" or "Failed to
    retrieve encrypted data". *)
Theorem storage_errors_are_wrapped this :
  (forall uid dataType (data : Value) v e v',
     storeEncryptedData this uid dataType data v = (Throw e, v') ->
     e = Err "Failed to store encrypted data")
  /\ (forall uid dataType id_ v e v',
        retrieveEncryptedData this uid dataType id_ v = (Throw e, v') ->
        e = Err "Failed to retrieve encrypted data").
Proof.
  split; intros until v'; intros H.
  - unfold storeEncryptedData, try_catchV, throwV in H.
    match type of H with context [match ?c with _ => _ end] =>
      destruct c as [[a|e0] v0] end; [discriminate|].
    injection H as <- _. reflexivity.
  - unfold retrieveEncryptedData, try_catchV, throwV in H.
    match type of H with context [match ?c with _ => _ end] =>
      destruct c as [[a|e0] v0] end; [discriminate|].
    injection H as <- _. reflexivity.
Qed.

End VaultProofs.

Lemma demo_secret_serializable : @serializable demo_crypto "secret"%string.
Proof. exists "secret"%string. split; reflexivity. Qed.

Lemma demo_vault_user : is_Some (users (world demo_vault) !! 1).
Proof. exists demo_user. reflexivity. Qed.

Lemma store_then_retrieve_witness :
  exists v',
    @storeEncryptedData demo_crypto demo_manager 1 "api_key" "secret"%string demo_vault
    = (Return 1, v')
    /\ @retrieveEncryptedData demo_crypto demo_manager 1 "password" (Some 1) v'
       = (Return (Some "secret"%string), v')
    /\ @retrieveEncryptedData demo_crypto demo_manager 2 "api_key" (Some 1) v'
       = (Return None, v').
Proof.
  destruct (@store_then_retrieve demo_crypto demo_crypto_laws demo_manager 1 "api_key"
              "secret"%string demo_vault demo_secret_serializable eq_refl
              demo_vault_user ltac:(cbn; lia) (List.Forall_nil _) ltac:(discriminate))
    as (v' & Hrun & Hown & Hother).
  exists v'. split; [exact Hrun|]. split; [apply Hown|apply Hother; discriminate].
Defined.

Lemma retrieve_is_per_user_witness :
  fst (@retrieveEncryptedData demo_crypto demo_manager 1 "api_key" (Some 7) shared_vault)
  <> Return (Some "secret"%string).
Proof.
  apply (@retrieve_is_per_user demo_crypto demo_manager 1 "api_key" 7 shared_vault).
  - discriminate.
  - constructor; [|constructor]. intros _. discriminate.
Defined.

Lemma retrieve_under_other_key_witness :
  exists v',
    @storeEncryptedData demo_crypto demo_manager 1 "api_key" "secret"%string demo_vault
    = (Return 1, v')
    /\ @retrieveEncryptedData demo_crypto (mkEncryptionManager "key-two") 1 "api_key"
         (Some 1) v'
       = (Throw (Err "Failed to retrieve encrypted data"), v').
Proof.
  apply (@retrieve_under_other_key demo_crypto demo_crypto_laws demo_manager
           (mkEncryptionManager "key-two") 1 "api_key" "secret"%string demo_vault
           demo_secret_serializable eq_refl demo_vault_user ltac:(cbn; lia)
           (List.Forall_nil _) ltac:(discriminate)).
  vm_compute. discriminate.
Defined.

Lemma retrieve_latest_witness :
  exists id_ v',
    @storeEncryptedData demo_crypto demo_manager 1 "api_key" "secret"%string demo_vault
    = (Return id_, v')
    /\ @retrieveEncryptedData demo_crypto demo_manager 1 "api_key" None v'
       = (Return (Some "secret"%string), v')
    /\ @retrieveEncryptedData demo_crypto demo_manager 1 "api_key" (Some 0) v'
       = (Return (Some "secret"%string), v').
Proof.
  apply (@retrieve_latest demo_crypto demo_crypto_laws demo_manager 1 "api_key"
           "secret"%string demo_vault demo_secret_serializable eq_refl demo_vault_user
           ltac:(cbn; lia) (List.Forall_nil _) (List.Forall_nil _)).
Defined.

Lemma storage_errors_are_wrapped_witness :
  fst (@storeEncryptedData demo_crypto demo_manager 9 "api_key" "secret"%string demo_vault)
  = Throw (Err "Failed to store encrypted data")
  /\ fst (@retrieveEncryptedData demo_crypto demo_manager 2 "api_key" (Some 7) shared_vault)
     = Throw (Err "Failed to retrieve encrypted data").
Proof.
  split.
  - destruct (@storeEncryptedData demo_crypto demo_manager 9 "api_key" "secret"%string
                demo_vault) as [[a|e] v'] eqn:E; [vm_compute in E; discriminate E|].
    apply (proj1 (@storage_errors_are_wrapped demo_crypto demo_manager)) in E.
    rewrite E. reflexivity.
  - destruct (@retrieveEncryptedData demo_crypto demo_manager 2 "api_key" (Some 7)
                shared_vault) as [[a|e] v'] eqn:E; [vm_compute in E; discriminate E|].
    apply (proj2 (@storage_errors_are_wrapped demo_crypto demo_manager)) in E.
    rewrite E. reflexivity.
Defined.

(** ** Repeated logins *)























Section LoginRuns.
Context {P : PgTypes}.
Variable error_message : Error -> string.
Variable toLowerCase : string -> string.
Variable bcrypt_compare : JsVal -> option string -> Outcome bool.
Variable password_hash : Z -> option string.
Variable stringify_device : string -> string.

Local Abbreviation login :=
  (handleLogin error_message toLowerCase bcrypt_compare password_hash stringify_device).




Section Run.
Variables (event : Event) (ip ua : string) (hdrs : list (string * string)).
Variables (e0 : string) (password : JsVal) (uid : Z).
Hypothesis Hin : login_inputs event e0 password.
Hypothesis Hcmp : bcrypt_compare password (password_hash uid) = Return false.

Local Abbreviation attempt := (login event ip ua hdrs).
Local Abbreviation wrong :=
  (fun failures : Z =>
     mkResponse 401 hdrs
       (FailedLoginBody "Invalid email or password" (Z.max 0 (5 - failures)))).
Local Abbreviation W := (15 * 60 * 1000).




End Run.


End LoginRuns.


(** ** The address the limiter counts *)

Lemma answers_ret (P : Response -> Prop) r : P r -> answers P (ret r).
Proof. intros H w. exact H. Qed.

Lemma answers_throw (P : Response -> Prop) e : answers P (throw e).
Proof. intros w. exact I. Qed.

Lemma answers_bind {A} (P : Response -> Prop) (c : M A) (k : A -> M Response) :
  (forall a, answers P (k a)) -> answers P (bind c k).
Proof.
  intros Hk w. unfold bind. destruct (c w) as [[a|e] w1]; [apply Hk|exact I].
Qed.

Lemma answers_try_catch (P : Response -> Prop) (c : M Response) h :
  answers P c -> (forall e, answers P (h e)) -> answers P (try_catch c h).
Proof.
  intros Hc Hh w. unfold try_catch. specialize (Hc w).
  destruct (c w) as [[a|e] w1]; [exact Hc|apply Hh].
Qed.

Lemma getClientInfo_forwarded event hs v :
  headers event = Some hs -> hs !! "x-forwarded-for"%string = Some v ->
  v <> EmptyString -> fst (getClientInfo event) = v.
Proof.
  intros Hh Hv Hne. unfold getClientInfo. simpl. rewrite Hh, Hv. simpl.
  destruct (String.eqb v EmptyString) eqn:E; [|reflexivity].
  apply String.eqb_eq in E. contradiction.
Qed.

Section Buckets.
Context {P : PgTypes}.
Variable error_message : Error -> string.
Variable toLowerCase : string -> string.
Variable bcrypt_compare : JsVal -> option string -> Outcome bool.
Variable password_hash : Z -> option string.
Variable stringify_device : string -> string.
Variable prepareValue : JsVal -> string.
Variables handleRegister handleForgotPassword handleResetPassword
          handleChangePassword handleDemo handleLinkedInAuth handleGetProfile : Handler.

Local Abbreviation dispatch :=
  (main_with error_message toLowerCase bcrypt_compare password_hash stringify_device
             prepareValue handleRegister handleForgotPassword handleResetPassword
             handleChangePassword handleDemo handleLinkedInAuth handleGetProfile).

(** Once the limiter has let a login through, the answer is not 429. *)
Lemma login_allowed_answers event ip ua hdrs w w1 :
  checkRateLimit ip "login" ip w = (Return true, w1) ->
  match fst (handleLogin error_message toLowerCase bcrypt_compare password_hash
               stringify_device event ip ua hdrs w) with
  | Return r => statusCode r <> 429
  | Throw _ => True
  end.
Proof.
  intros Hcheck. unfold handleLogin, bind at 1. rewrite Hcheck. simpl.
  revert w1 Hcheck. intros w1 _.
  match goal with |- match fst (?c w1) with _ => _ end =>
    enough (H : answers (fun r => statusCode r <> 429) c) by apply H end.
  unfold log_and_rethrow.
  repeat first [ apply answers_bind; intros ?
               | apply answers_try_catch; [|intros ?]
               | apply answers_ret; simpl; discriminate
               | apply answers_throw
               | match goal with
                 | |- answers _ (if ?b then _ else _) => destruct b
                 | |- answers _ (match ?x with _ => _ end) => destruct x
                 end ].
Qed.

(** X28. The address the limiter counts is the value of [x-forwarded-for]
    as the request carries it.  A login request whose header holds a value
    that [rate_limits] has no row for is not answered 429, whatever rows
    other values have, blocked ones included. *)
Theorem forwarded_for_names_the_bucket (h : Handler) event hs address w :
  httpMethod event = "POST"%string ->
  includes "/register" (path event) = false -> includes "/login" (path event) = true ->
  headers event = Some hs -> hs !! "x-forwarded-for"%string = Some address ->
  address <> EmptyString ->
  faults w = [] -> pair_rows address "login" w = [] ->
  exists response w', dispatch h event w = (Return response, w')
    /\ statusCode response <> 429.
Proof.
  intros Hm Hreg Hlogin Hh Hv Hne Hf Hrows.
  pose proof (getClientInfo_forwarded event hs address Hh Hv Hne) as Hip.
  unfold main_with. destruct (getClientInfo event) as [ip ua]. simpl in Hip. subst ip.
  rewrite Hm, Hreg, Hlogin. simpl.
  destruct (check_first address "login" address 5 (15 * 60 * 1000) eq_refl w Hf Hrows)
    as (w1 & Hcheck).
  pose proof (login_allowed_answers event address ua
                [("Access-Control-Allow-Origin", "*");
                 ("Access-Control-Allow-Headers", "Content-Type,Authorization");
                 ("Content-Type", "application/json")]%string w w1 Hcheck) as Hans.
  unfold try_catch.
  destruct (handleLogin _ _ _ _ _ _ _ _ _ w) as [[r|e] w2]; simpl in Hans.
  - eauto.
  - unfold bind. step_log. unfold ret. eexists; eexists. split; [reflexivity|].
    simpl. discriminate.
Qed.

End Buckets.

Lemma forwarded_for_names_the_bucket_witness :
  exists response w',
    main (P := demo_pg) (fun _ => "error"%string) (fun s => s) demo_bcrypt demo_hash (fun s => s)
         (fun _ => "null"%string)
         (fun _ _ _ _ => throw TypeError) (fun _ _ _ _ => throw TypeError)
         (fun _ _ _ _ => throw TypeError) (fun _ _ _ _ => throw TypeError)
         (fun _ _ _ _ => throw TypeError) (fun _ _ _ _ => throw TypeError)
         (fun _ _ _ _ => throw TypeError)
         (forwarded_login "9.9.9.9" "a@b.c" "guess") limited_world
    = (Return response, w')
    /\ statusCode response <> 429.
Proof.
  apply (forwarded_for_names_the_bucket (P := demo_pg) (fun _ => "error"%string) (fun s => s)
           demo_bcrypt demo_hash (fun s => s) (fun _ => "null"%string)
           (fun _ _ _ _ => throw TypeError) (fun _ _ _ _ => throw TypeError)
           (fun _ _ _ _ => throw TypeError) (fun _ _ _ _ => throw TypeError)
           (fun _ _ _ _ => throw TypeError) (fun _ _ _ _ => throw TypeError)
           (fun _ _ _ _ => throw TypeError)
           (handleLogoutAll (fun _ => "error"%string))
           (forwarded_login "9.9.9.9" "a@b.c" "guess")
           {[ "x-forwarded-for"%string := "9.9.9.9"%string ]} "9.9.9.9"%string
           limited_world).
  - reflexivity.
  - reflexivity.
  - reflexivity.
  - reflexivity.
  - apply lookup_singleton_eq.
  - discriminate.
  - reflexivity.
  - vm_compute. reflexivity.
Defined.

(** ** The statements above on concrete inputs *)

Lemma getClientInfo_never_empty_witness :
  fst (getClientInfo (forwarded_login "9.9.9.9" "a@b.c" "guess")) = "9.9.9.9"%string.
Proof.
  apply (proj2 (proj2 (getClientInfo_never_empty
                         (forwarded_login "9.9.9.9" "a@b.c" "guess")))
           {[ "x-forwarded-for"%string := "9.9.9.9"%string ]}).
  - reflexivity.
  - apply lookup_singleton_eq.
  - discriminate.
Defined.

Lemma failures_are_contained_witness :
  fst (createSession (P := demo_pg) 9 "web" "1.2.3.4" "agent" demo_world)
  = Throw (Err "Failed to create session").
Proof.
  destruct (failures_are_contained (P := demo_pg))
    as (_ & _ & _ & _ & _ & _ & _ & _ & Hcreate).
  destruct (createSession (P := demo_pg) 9 "web" "1.2.3.4" "agent" demo_world)
    as [[a|e] w'] eqn:E;
    [vm_compute in E; discriminate E|].
  apply Hcreate in E. rewrite E. reflexivity.
Defined.

Lemma sanitizeInput_strips_brackets_witness :
  ~ In (chr "<") (String.list_ascii_of_string (sanitizeString " <b>bold</b> ")).
Proof.
  intros H. apply (proj1 sanitizeInput_strips_brackets) in H.
  destruct H as [H _]. apply H. reflexivity.
Defined.
